(** * Shallow embedding of the rclone S3 router pipeline (Mapper, Zipper, Unzipper)

    Sources: [master-mapper-v4.py], [python_zipper-v6.py] and
    [python_unzipper-v6.py] under [all-end-to-end-files/].  Python [str]
    values are modelled as Stdlib [string]s (byte strings); the Staging-Store
    keys handled below are ASCII because [sanitize_name] percent-encodes
    every non-ASCII byte. *)

From Stdlib Require Import Bool ZArith List Lia.
From Stdlib Require Import Strings.String Strings.Ascii.
From Stdlib Require Import Numbers.DecimalString Numbers.DecimalNat.
From Stdlib Require Import Sorting.Sorted Sorting.Permutation.
From Stdlib Require Import QArith Qround.
Import ListNotations.
Open Scope string_scope.

(* ================================================================= *)
(** ** Python string helpers *)

Module PyStr.

(** [s.startswith(p)] *)
Definition startswith (s p : string) : bool := String.prefix p s.

(** [s.endswith(p)] *)
Fixpoint endswith (s p : string) : bool :=
  if String.eqb s p then true
  else match s with
       | EmptyString => false
       | String _ s' => endswith s' p
       end.

(** [s.split(c)] for a one-character separator. *)
Fixpoint split_on (c : ascii) (s : string) : list string :=
  match s with
  | EmptyString => [EmptyString]
  | String d s' =>
      if Ascii.eqb d c then EmptyString :: split_on c s'
      else match split_on c s' with
           | h :: t => String d h :: t
           | [] => [String d EmptyString]
           end
  end.

(** [s.replace(pat, rep)] for a non-empty [pat]: every non-overlapping
    occurrence, scanned from the left, is replaced.  [skip] counts the
    characters of an occurrence that remain to be dropped. *)
Fixpoint replace_go (pat rep : string) (skip : nat) (s : string) : string :=
  match s with
  | EmptyString => EmptyString
  | String c s' =>
      match skip with
      | S k => replace_go pat rep k s'
      | O =>
          if String.prefix pat s
          then rep ++ replace_go pat rep (pred (String.length pat)) s'
          else String c (replace_go pat rep O s')
      end
  end.

(** Python inserts [rep] between all characters for an empty pattern. *)
Fixpoint replace_empty (rep s : string) : string :=
  match s with
  | EmptyString => rep
  | String c s' => rep ++ String c (replace_empty rep s')
  end.

Definition replace (s pat rep : string) : string :=
  match pat with
  | EmptyString => replace_empty rep s
  | _ => replace_go pat rep O s
  end.

(** [str(n)] for a non-negative integer. *)
Definition str_of_nat (n : nat) : string :=
  NilEmpty.string_of_uint (Nat.to_uint n).

End PyStr.

(* ================================================================= *)
(** ** Zipper: archive key of a split ([pipeline_worker], lines 837-844)

<<
        if split_index == 0:
            current_s3_key = base_s3_key
        else:
            ext = base_s3_key.split('.')[-1]
            base = base_s3_key.replace(f".{ext}", "")
            current_s3_key = f"{base}_Split{split_index}.{ext}"
>> *)

Module ZipKey.
Import PyStr.

Definition S3_PREFIX : string := "work_files_zips/".

Definition split_key (base_s3_key : string) (split_index : nat) : string :=
  match split_index with
  | O => base_s3_key
  | _ =>
      let ext := last (split_on "." base_s3_key) EmptyString in
      let base := replace base_s3_key ("." ++ ext) EmptyString in
      base ++ "_Split" ++ str_of_nat split_index ++ "." ++ ext
  end.

(** The key the claim describes: only the trailing [.zip] is replaced. *)
Definition spec_split_key (stem : string) (split_index : nat) : string :=
  match split_index with
  | O => stem ++ ".zip"
  | _ => stem ++ "_Split" ++ str_of_nat split_index ++ ".zip"
  end.

End ZipKey.

(* ================================================================= *)
(** ** Shared core: [sanitize_name] (identical in the three programs)

<<
def safe_encode_filename(filename: str) -> str:
    try:
        filename.encode('ascii'); return filename
    except UnicodeEncodeError:
        return unicodedata.normalize('NFC', filename)

def sanitize_name(name: str) -> str:
    safe_name = safe_encode_filename(name)
    return quote(safe_name, safe='').replace('%20', '_').replace('%2F', '_')
>>

    A Python [str] is a list of Unicode scalar values (code points, as
    [Z]).  Unicode NFC normalisation is a large table-driven function; it is
    a parameter [nfc] of the development. *)

Module Sanitize.
Import PyStr.
Local Open Scope Z_scope.

(** [str.encode('utf-8')] of one code point. *)
Definition utf8_of_cp (c : Z) : list Z :=
  if c <? 128 then [c]
  else if c <? 2048 then
    [Z.lor 192 (Z.shiftr c 6); Z.lor 128 (Z.land c 63)]
  else if c <? 65536 then
    [Z.lor 224 (Z.shiftr c 12); Z.lor 128 (Z.land (Z.shiftr c 6) 63);
     Z.lor 128 (Z.land c 63)]
  else
    [Z.lor 240 (Z.shiftr c 18); Z.lor 128 (Z.land (Z.shiftr c 12) 63);
     Z.lor 128 (Z.land (Z.shiftr c 6) 63); Z.lor 128 (Z.land c 63)].

Definition utf8_encode (s : list Z) : list Z := flat_map utf8_of_cp s.

Definition byte_char (b : Z) : ascii := ascii_of_N (Z.to_N b).

Definition in_range (lo hi b : Z) : bool := (lo <=? b) && (b <=? hi).

Definition is_ascii_alnum (b : Z) : bool :=
  in_range 97 122 b || in_range 65 90 b || in_range 48 57 b.

(** [urllib.parse._ALWAYS_SAFE]: ASCII letters, digits and [_.-~]. *)
Definition is_always_safe (b : Z) : bool :=
  is_ascii_alnum b || (b =? 95) || (b =? 46) || (b =? 45) || (b =? 126).

(** Upper-case hexadecimal digit, as in ['%{:02X}']. *)
Definition hexdig (d : Z) : ascii :=
  if d <? 10 then byte_char (48 + d) else byte_char (55 + d).

Definition pct (b : Z) : string :=
  String "%" (String (hexdig (b / 16)) (String (hexdig (b mod 16)) EmptyString)).

(** [quote_from_bytes(bs, safe='')] with a given set of kept bytes. *)
Definition quote_byte_with (keep : Z -> bool) (b : Z) : string :=
  if keep b then String (byte_char b) EmptyString else pct b.

Fixpoint concat_bytes (f : Z -> string) (bs : list Z) : string :=
  match bs with
  | [] => EmptyString
  | b :: bs' => f b ++ concat_bytes f bs'
  end.

(** [quote(s, safe='')] *)
Definition quote (s : list Z) : string :=
  concat_bytes (quote_byte_with is_always_safe) (utf8_encode s).

Definition is_ascii_str (s : list Z) : bool := forallb (fun c => c <? 128) s.

Section WithNFC.
Variable nfc : list Z -> list Z.

Definition safe_encode_filename (filename : list Z) : list Z :=
  if is_ascii_str filename then filename else nfc filename.

Definition sanitize_name (name : list Z) : string :=
  replace (replace (quote (safe_encode_filename name)) "%20" "_") "%2F" "_".

(** The function as the claim words it: NFC, then percent-encode every
    character that is not an ASCII letter or digit, then [%20]/[%2F] to [_]. *)
Definition spec_sanitize (name : list Z) : string :=
  replace (replace (concat_bytes (quote_byte_with is_ascii_alnum)
                      (utf8_encode (nfc name))) "%20" "_") "%2F" "_".

(** Byte-wise reading of the code: bytes of [_ALWAYS_SAFE] are kept, space
    and [/] become [_], every other byte becomes [%XX]. *)
Definition amended_byte (b : Z) : string :=
  if is_always_safe b then String (byte_char b) EmptyString
  else if (b =? 32) || (b =? 47) then "_"
  else pct b.

Definition amended_sanitize (name : list Z) : string :=
  concat_bytes amended_byte (utf8_encode (nfc name)).

End WithNFC.

(** ASCII strings are already in NFC. *)
Definition nfc_fixes_ascii (nfc : list Z -> list Z) : Prop :=
  forall s, is_ascii_str s = true -> nfc s = s.

(** A Python [str] from an ASCII literal. *)
Definition ustr (s : string) : list Z :=
  map (fun a => Z.of_N (N_of_ascii a)) (list_ascii_of_string s).

End Sanitize.

(* ================================================================= *)
(** ** Lemmas about [sanitize_name] *)

Module SanitizeFacts.
Import PyStr Sanitize.
Local Open Scope Z_scope.

Definition byte_ok (b : Z) : Prop := 0 <= b <= 255.

Lemma forall_bytes (P : Z -> bool) :
  forallb P (map Z.of_nat (seq 0 256)) = true ->
  forall b, byte_ok b -> P b = true.
Proof.
  intros H b Hb. unfold byte_ok in Hb. rewrite forallb_forall in H. apply H.
  apply in_map_iff. exists (Z.to_nat b). split; [lia|].
  apply in_seq. lia.
Qed.

Lemma forall_below (n : nat) (P : Z -> bool) :
  forallb P (map Z.of_nat (seq 0 n)) = true ->
  forall x, 0 <= x < Z.of_nat n -> P x = true.
Proof.
  intros H x Hx. rewrite forallb_forall in H. apply H.
  apply in_map_iff. exists (Z.to_nat x). split; [lia|].
  apply in_seq. lia.
Qed.

Lemma lor_byte (k x : Z) :
  In k [128; 192; 224; 240] -> 0 <= x < 64 -> byte_ok (Z.lor k x).
Proof.
  intros Hk Hx.
  assert (H : forall k', In k' [128; 192; 224; 240] ->
            forallb (fun x => (0 <=? Z.lor k' x) && (Z.lor k' x <=? 255))
                    (map Z.of_nat (seq 0 64)) = true).
  { intros k' Hk'. simpl in Hk'.
    destruct Hk' as [<-|[<-|[<-|[<-|[]]]]]; vm_compute; reflexivity. }
  pose proof (forall_below 64 _ (H k Hk) x ltac:(lia)) as Hb.
  apply andb_prop in Hb as [H1 H2]. unfold byte_ok. lia.
Qed.

Lemma land63_range (c : Z) : 0 <= Z.land c 63 < 64.
Proof.
  change 63 with (Z.ones 6). rewrite Z.land_ones by lia.
  apply Z.mod_pos_bound. reflexivity.
Qed.

Lemma shiftr_lt (c n b : Z) :
  0 <= c < b * 2 ^ n -> 0 <= n -> 0 < b -> 0 <= Z.shiftr c n < b.
Proof.
  intros Hc Hn Hb. rewrite Z.shiftr_div_pow2 by lia.
  assert (0 < 2 ^ n) by (apply Z.pow_pos_nonneg; lia).
  split. apply Z.div_pos; lia. apply Z.div_lt_upper_bound; lia.
Qed.

Definition valid_cp (c : Z) : bool := (0 <=? c) && (c <? 1114112).
Definition valid_ustr (s : list Z) : bool := forallb valid_cp s.

Lemma utf8_of_cp_bytes (c : Z) :
  valid_cp c = true -> Forall byte_ok (utf8_of_cp c).
Proof.
  unfold valid_cp. intros Hc. apply andb_prop in Hc as [H1 H2].
  apply Z.leb_le in H1. apply Z.ltb_lt in H2.
  pose proof (land63_range c).
  unfold utf8_of_cp.
  destruct (c <? 128) eqn:E1; [constructor; [unfold byte_ok; lia | constructor]|].
  apply Z.ltb_ge in E1.
  destruct (c <? 2048) eqn:E2.
  { apply Z.ltb_lt in E2.
    assert (0 <= Z.shiftr c 6 < 32) by (apply shiftr_lt; simpl; lia).
    repeat constructor; apply lor_byte; simpl; tauto || lia. }
  apply Z.ltb_ge in E2.
  pose proof (land63_range (Z.shiftr c 6)).
  destruct (c <? 65536) eqn:E3.
  { apply Z.ltb_lt in E3.
    assert (0 <= Z.shiftr c 12 < 16) by (apply shiftr_lt; simpl; lia).
    repeat constructor; apply lor_byte; simpl; tauto || lia. }
  pose proof (land63_range (Z.shiftr c 12)).
  assert (0 <= Z.shiftr c 18 < 8) by (apply shiftr_lt; simpl; lia).
  repeat constructor; apply lor_byte; simpl; tauto || lia.
Qed.

Lemma utf8_encode_bytes (s : list Z) :
  valid_ustr s = true -> Forall byte_ok (utf8_encode s).
Proof.
  unfold valid_ustr, utf8_encode. induction s as [|c s IH]; simpl; intros H.
  - constructor.
  - apply andb_prop in H as [Hc Hs]. apply Forall_app. split.
    + now apply utf8_of_cp_bytes.
    + now apply IH.
Qed.

End SanitizeFacts.

Module SanitizeProofs.
Import PyStr Sanitize SanitizeFacts.
Local Open Scope Z_scope.

(** Pieces of a [quote] output: one kept character other than [%], or a
    [%XX] triple whose two hex digits are not [%]. *)
Definition tok_okb (t : string) : bool :=
  match t with
  | String c EmptyString => negb (Ascii.eqb c "%")
  | String c (String h (String l EmptyString)) =>
      Ascii.eqb c "%" && negb (Ascii.eqb h "%") && negb (Ascii.eqb l "%")
  | _ => false
  end.

Definition pat3 (x y : ascii) : string := String "%" (String x (String y EmptyString)).

Lemma prefix_neq (c d : ascii) (p s : string) :
  c <> d -> String.prefix (String c p) (String d s) = false.
Proof. intros H. simpl. destruct (ascii_dec c d); congruence. Qed.

Lemma prefix_same (c : ascii) (p s : string) :
  String.prefix (String c p) (String c s) = String.prefix p s.
Proof. simpl. destruct (ascii_dec c c); congruence. Qed.

Lemma prefix_nil (s : string) : String.prefix EmptyString s = true.
Proof. destruct s; reflexivity. Qed.

Lemma replace_go_0 (pat rep : string) (c : ascii) (s : string) :
  replace_go pat rep O (String c s) =
  if String.prefix pat (String c s)
  then rep ++ replace_go pat rep (pred (String.length pat)) s
  else String c (replace_go pat rep O s).
Proof. reflexivity. Qed.

Lemma replace_go_S (pat rep : string) (k : nat) (c : ascii) (s : string) :
  replace_go pat rep (S k) (String c s) = replace_go pat rep k s.
Proof. reflexivity. Qed.

Lemma replace_go_tok (x y : ascii) (rep t s : string) :
  tok_okb t = true ->
  replace_go (pat3 x y) rep O (t ++ s) =
  (if String.eqb t (pat3 x y) then rep else t) ++ replace_go (pat3 x y) rep O s.
Proof.
  unfold pat3. destruct t as [|c [|h [|l [|z r]]]]; try discriminate.
  - intros H. unfold tok_okb in H.
    destruct (Ascii.eqb_spec c "%") as [->|Hc]; [discriminate|].
    change (String c EmptyString ++ s) with (String c s).
    rewrite replace_go_0, prefix_neq by congruence.
    destruct (String.eqb_spec (String c EmptyString)
               (String "%" (String x (String y EmptyString)))) as [E|_].
    + injection E; congruence.
    + reflexivity.
  - intros H. unfold tok_okb in H.
    apply andb_prop in H as [H Hl]. apply andb_prop in H as [Hc Hh].
    apply Ascii.eqb_eq in Hc. subst c.
    destruct (Ascii.eqb_spec h "%") as [->|Hh']; [discriminate|].
    destruct (Ascii.eqb_spec l "%") as [->|Hl']; [discriminate|].
    change (String "%" (String h (String l EmptyString)) ++ s)
      with (String "%" (String h (String l s))).
    rewrite replace_go_0, prefix_same.
    destruct (ascii_dec x h) as [<-|Hxh].
    + rewrite prefix_same.
      destruct (ascii_dec y l) as [<-|Hyl].
      * rewrite prefix_same, prefix_nil, String.eqb_refl. reflexivity.
      * rewrite prefix_neq by exact Hyl.
        destruct (String.eqb_spec (String "%" (String x (String l EmptyString)))
                   (String "%" (String x (String y EmptyString)))) as [E|_].
        { injection E; congruence. }
        rewrite replace_go_0, prefix_neq by congruence.
        rewrite replace_go_0, prefix_neq by congruence. reflexivity.
    + rewrite prefix_neq by exact Hxh.
      destruct (String.eqb_spec (String "%" (String h (String l EmptyString)))
                 (String "%" (String x (String y EmptyString)))) as [E|_].
      { injection E; congruence. }
      rewrite replace_go_0, prefix_neq by congruence.
      rewrite replace_go_0, prefix_neq by congruence. reflexivity.
Qed.

Lemma replace_concat (x y : ascii) (rep : string) (f : Z -> string) (bs : list Z) :
  Forall (fun b => tok_okb (f b) = true) bs ->
  replace (concat_bytes f bs) (pat3 x y) rep =
  concat_bytes (fun b => if String.eqb (f b) (pat3 x y) then rep else f b) bs.
Proof.
  unfold replace, pat3. fold (pat3 x y).
  induction 1 as [|b bs Hb Hbs IH]; [reflexivity|].
  simpl. rewrite replace_go_tok by exact Hb. now rewrite IH.
Qed.

Lemma concat_bytes_ext (f g : Z -> string) (bs : list Z) :
  Forall (fun b => f b = g b) bs -> concat_bytes f bs = concat_bytes g bs.
Proof. induction 1; simpl; congruence. Qed.

Lemma Forall_bytes_bool (P : Z -> bool) (bs : list Z) :
  forallb P (map Z.of_nat (seq 0 256)) = true ->
  Forall byte_ok bs -> Forall (fun b => P b = true) bs.
Proof.
  intros H. apply Forall_impl. intros b Hb. now apply (forall_bytes P H).
Qed.

Definition quote_tok (b : Z) : string := quote_byte_with is_always_safe b.

Definition after20 (b : Z) : string :=
  if String.eqb (quote_tok b) "%20" then "_" else quote_tok b.

Definition after2F (b : Z) : string :=
  if String.eqb (after20 b) "%2F" then "_" else after20 b.

(** [sanitize_name] applied to an already-normalised string is the byte-wise
    map [amended_byte] over its UTF-8 encoding. *)
Lemma quote_replace_bytewise (s : list Z) :
  valid_ustr s = true ->
  replace (replace (quote s) "%20" "_") "%2F" "_" =
  concat_bytes amended_byte (utf8_encode s).
Proof.
  intros Hs. pose proof (utf8_encode_bytes s Hs) as Hb.
  unfold quote.
  change "%20" with (pat3 "2" "0"). change "%2F" with (pat3 "2" "F").
  rewrite replace_concat.
  2:{ apply (Forall_bytes_bool (fun b => tok_okb (quote_tok b))); [vm_compute; reflexivity|exact Hb]. }
  rewrite replace_concat.
  2:{ apply (Forall_bytes_bool (fun b => tok_okb (after20 b))); [vm_compute; reflexivity|exact Hb]. }
  apply concat_bytes_ext.
  assert (Hchk : forallb (fun b => String.eqb (after2F b) (amended_byte b))
                  (map Z.of_nat (seq 0 256)) = true) by (vm_compute; reflexivity).
  pose proof (Forall_bytes_bool _ _ Hchk Hb) as Hall.
  eapply Forall_impl; [|exact Hall]. intros b Heq. simpl in Heq.
  apply String.eqb_eq in Heq. exact Heq.
Qed.

End SanitizeProofs.

(* ================================================================= *)
(** ** Unzipper: [list_s3_zips_for_folder] and its natural sort key
    (python_unzipper-v6.py, lines 482-507)

<<
    def natural_sort_key(s: str) -> List[Any]:
        return [int(t) if t.isdigit() else t.lower()
                for t in re.split(r'(\d+)', s)]
    all_keys.sort(key=natural_sort_key)
>>

    [re.split(r'(\d+)', s)] is a left-to-right scan that alternates text
    pieces and digit runs, starting and ending with a (possibly empty) text
    piece. *)

Module NatSort.
Import PyStr.

Definition is_digit (c : ascii) : bool :=
  (48 <=? nat_of_ascii c)%nat && (nat_of_ascii c <=? 57)%nat.

Inductive mode := MText | MDigit.

(** Scanner state: finished pieces (latest first), current piece (reversed)
    and whether the current piece is text or a digit run. *)
Record scan := mkScan { done_pieces : list (list ascii);
                        cur : list ascii;
                        md : mode }.

Definition scan0 : scan := mkScan [] [] MText.

Definition step (st : scan) (c : ascii) : scan :=
  match md st with
  | MText =>
      if is_digit c then mkScan (rev (cur st) :: done_pieces st) [c] MDigit
      else mkScan (done_pieces st) (c :: cur st) MText
  | MDigit =>
      if is_digit c then mkScan (done_pieces st) (c :: cur st) MDigit
      else mkScan (rev (cur st) :: done_pieces st) [c] MText
  end.

Definition finish (st : scan) : list (list ascii) :=
  match md st with
  | MText => rev (rev (cur st) :: done_pieces st)
  | MDigit => rev ([] :: rev (cur st) :: done_pieces st)
  end.

Definition run (st : scan) (s : list ascii) : scan := fold_left step s st.

(** [re.split(r'(\d+)', s)] *)
Definition re_split_digits (s : list ascii) : list (list ascii) :=
  finish (run scan0 s).

(** One element of the key list: a Python [int] or a Python [str]. *)
Inductive tok := TInt (n : N) | TStr (s : list ascii).

(** [t.isdigit()] *)
Definition isdigit (t : list ascii) : bool :=
  match t with [] => false | _ => forallb is_digit t end.

(** [int(t)] of a digit run *)
Definition int_of_digits (t : list ascii) : N :=
  fold_left (fun n c => 10 * n + N.of_nat (nat_of_ascii c - 48))%N t 0%N.

(** [str.lower()] on ASCII *)
Definition lower_char (c : ascii) : ascii :=
  let n := nat_of_ascii c in
  if ((65 <=? n) && (n <=? 90))%nat then ascii_of_nat (n + 32) else c.

(** [int(t) if t.isdigit() else t.lower()] *)
Definition tokify (t : list ascii) : tok :=
  if isdigit t then TInt (int_of_digits t) else TStr (map lower_char t).

Definition natural_sort_key (s : string) : list tok :=
  map tokify (re_split_digits (list_ascii_of_string s)).

(** Python [str] ordering (by code point) *)
Fixpoint cmp_chars (a b : list ascii) : comparison :=
  match a, b with
  | [], [] => Eq
  | [], _ :: _ => Lt
  | _ :: _, [] => Gt
  | x :: a', y :: b' =>
      match Ascii.compare x y with
      | Eq => cmp_chars a' b'
      | r => r
      end
  end.

(** Python comparison of two elements of a key.  Keys alternate [str] and
    [int] at the same positions, so the mixed case (where Python would raise
    [TypeError]) is never reached; it is given a fixed order here. *)
Definition cmp_tok (x y : tok) : comparison :=
  match x, y with
  | TInt a, TInt b => N.compare a b
  | TStr a, TStr b => cmp_chars a b
  | TStr _, TInt _ => Lt
  | TInt _, TStr _ => Gt
  end.

(** Python list comparison (lexicographic, a proper prefix is smaller). *)
Fixpoint cmp_key (a b : list tok) : comparison :=
  match a, b with
  | [], [] => Eq
  | [], _ :: _ => Lt
  | _ :: _, [] => Gt
  | x :: a', y :: b' =>
      match cmp_tok x y with
      | Eq => cmp_key a' b'
      | r => r
      end
  end.

Definition key_lt (a b : string) : bool :=
  match cmp_key (natural_sort_key a) (natural_sort_key b) with
  | Lt => true | _ => false
  end.

Definition key_le (a b : string) : bool := negb (key_lt b a).

(** [list.sort(key=...)]: a stable sort; an element is inserted before the
    first element whose key is strictly greater. *)
Fixpoint insert_key (x : string) (l : list string) : list string :=
  match l with
  | [] => [x]
  | y :: l' => if key_lt y x then y :: insert_key x l' else x :: l
  end.

Fixpoint sort_keys (l : list string) : list string :=
  match l with
  | [] => []
  | x :: l' => insert_key x (sort_keys l')
  end.

(** The listing of the bucket under [prefix]: [None] when the paginator
    raises. *)
Definition list_s3_zips_for_folder (S3_PREFIX safe_name : string)
    (listing : option (list string)) : list string :=
  let prefix := S3_PREFIX ++ safe_name ++ "_" in
  match listing with
  | None => []
  | Some objs =>
      sort_keys (filter (fun key => startswith key prefix && endswith key ".zip") objs)
  end.

End NatSort.

Module NatSortFacts.
Import PyStr NatSort.
Local Open Scope list_scope.

(** *** The comparison is an order *)

Lemma cmp_chars_antisym (a b : list ascii) :
  cmp_chars b a = CompOpp (cmp_chars a b).
Proof.
  revert b. induction a as [|x a IH]; destruct b as [|y b]; try reflexivity.
  simpl. rewrite (Ascii.compare_antisym y x).
  destruct (Ascii.compare x y); simpl; auto.
Qed.

Lemma cmp_tok_antisym (x y : tok) : cmp_tok y x = CompOpp (cmp_tok x y).
Proof.
  destruct x, y; simpl; try reflexivity.
  - apply N.compare_antisym.
  - apply cmp_chars_antisym.
Qed.

Lemma cmp_key_antisym (a b : list tok) : cmp_key b a = CompOpp (cmp_key a b).
Proof.
  revert b. induction a as [|x a IH]; destruct b as [|y b]; try reflexivity.
  simpl. rewrite (cmp_tok_antisym x y).
  destruct (cmp_tok x y); simpl; auto.
Qed.

Lemma key_lt_le (a b : string) : key_lt a b = true -> key_le a b = true.
Proof.
  unfold key_le, key_lt. rewrite (cmp_key_antisym (natural_sort_key a)).
  destruct (cmp_key (natural_sort_key a) (natural_sort_key b)); simpl;
    congruence.
Qed.

(** *** [sort_keys] sorts and permutes *)

Lemma insert_key_perm (x : string) (l : list string) :
  Permutation (insert_key x l) (x :: l).
Proof.
  induction l as [|y l IH]; simpl; [reflexivity|].
  destruct (key_lt y x).
  - rewrite IH. apply perm_swap.
  - reflexivity.
Qed.

Lemma sort_keys_perm (l : list string) : Permutation (sort_keys l) l.
Proof.
  induction l as [|x l IH]; simpl; [reflexivity|].
  rewrite insert_key_perm. now apply perm_skip.
Qed.

Definition key_le_rel (a b : string) : Prop := key_le a b = true.

Lemma insert_key_sorted (x : string) (l : list string) :
  Sorted key_le_rel l -> Sorted key_le_rel (insert_key x l).
Proof.
  induction 1 as [|y l Hl IH Hhd]; simpl.
  - repeat constructor.
  - destruct (key_lt y x) eqn:E.
    + constructor; [exact IH|].
      destruct l as [|z l]; simpl.
      * constructor. now apply key_lt_le.
      * inversion Hhd; subst. destruct (key_lt z x).
        -- constructor. assumption.
        -- constructor. now apply key_lt_le.
    + constructor; [constructor; assumption|].
      constructor. unfold key_le_rel, key_le. now rewrite E.
Qed.

Lemma sort_keys_sorted (l : list string) : Sorted key_le_rel (sort_keys l).
Proof.
  induction l as [|x l IH]; simpl; [constructor|].
  now apply insert_key_sorted.
Qed.

(** *** Keys sharing a base compare like their suffixes *)

Definition out (st : scan) (s : list ascii) : list (list ascii) :=
  finish (run st s).

Definition prepend (u : list ascii) (ps : list (list ascii)) : list (list ascii) :=
  match ps with
  | [] => [u]
  | p :: ps' => (u ++ p) :: ps'
  end.

Lemma prepend_prepend (a b : list ascii) (ps : list (list ascii)) :
  prepend a (prepend b ps) = prepend (a ++ b) ps.
Proof. destruct ps; simpl; now rewrite ?app_assoc, ?app_nil_r. Qed.

Lemma out_acc (s : list ascii) : forall acc c m,
  out (mkScan acc c m) s = rev acc ++ out (mkScan [] c m) s.
Proof.
  unfold out, run.
  induction s as [|ch s IH]; intros acc c m.
  - destruct m; unfold finish; simpl; now rewrite <- ?app_assoc.
  - simpl. destruct m; unfold step; simpl; destruct (is_digit ch).
    + rewrite (IH (rev c :: acc)), (IH [rev c]). simpl. now rewrite <- app_assoc.
    + rewrite (IH acc), (IH []). reflexivity.
    + rewrite (IH acc), (IH []). reflexivity.
    + rewrite (IH (rev c :: acc)), (IH [rev c]). simpl. now rewrite <- app_assoc.
Qed.

Lemma step_text (acc : list (list ascii)) (c : list ascii) (ch : ascii) :
  step (mkScan acc c MText) ch =
  if is_digit ch then mkScan (rev c :: acc) [ch] MDigit
  else mkScan acc (ch :: c) MText.
Proof. reflexivity. Qed.

Lemma step_digit (acc : list (list ascii)) (c : list ascii) (ch : ascii) :
  step (mkScan acc c MDigit) ch =
  if is_digit ch then mkScan acc (ch :: c) MDigit
  else mkScan (rev c :: acc) [ch] MText.
Proof. reflexivity. Qed.

Lemma out_text (s : list ascii) : forall c,
  out (mkScan [] c MText) s = prepend (rev c) (out scan0 s).
Proof.
  unfold out, run.
  induction s as [|ch s IH]; intros c.
  - unfold finish; simpl. now rewrite app_nil_r.
  - pose proof (out_acc s) as A. unfold out, run in A.
    simpl. unfold scan0. rewrite !step_text. destruct (is_digit ch).
    + rewrite (A [rev c]), (A [rev []]). simpl. now rewrite app_nil_r.
    + rewrite (IH (ch :: c)), (IH [ch]). rewrite prepend_prepend. reflexivity.
Qed.

Lemma out_nonempty (st : scan) (s : list ascii) : out st s <> [].
Proof.
  unfold out, finish. destruct (md (run st s)); simpl;
    intros H; apply app_eq_nil in H; destruct H as [_ H]; discriminate.
Qed.

Lemma prepend_nil (ps : list (list ascii)) : ps <> [] -> prepend [] ps = ps.
Proof. destruct ps; simpl; congruence. Qed.

Lemma out_base (b : list ascii) : exists P u,
  forall ch s, is_digit ch = false ->
  out scan0 (b ++ ch :: s) = P ++ prepend u (out scan0 (ch :: s)).
Proof.
  destruct (run scan0 b) as [acc c m] eqn:Hb.
  destruct m.
  - exists (rev acc), (rev c). intros ch s _.
    unfold out at 1. unfold run. rewrite fold_left_app. fold (run scan0 b).
    rewrite Hb. fold (run (mkScan acc c MText) (ch :: s)).
    fold (out (mkScan acc c MText) (ch :: s)).
    rewrite out_acc, out_text. reflexivity.
  - exists (rev acc ++ [rev c]), []. intros ch s D.
    unfold out at 1. unfold run. rewrite fold_left_app. fold (run scan0 b).
    rewrite Hb. simpl. unfold step at 2. simpl. rewrite D.
    fold (run (mkScan (rev c :: acc) [ch] MText) s).
    fold (out (mkScan (rev c :: acc) [ch] MText) s).
    rewrite out_acc. simpl. rewrite <- !app_assoc. f_equal. simpl. f_equal.
    rewrite prepend_nil by apply out_nonempty.
    unfold out, run. simpl. unfold scan0. rewrite step_text, D. reflexivity.
Qed.

Lemma list_ascii_of_string_app (a b : string) :
  list_ascii_of_string (a ++ b) = (list_ascii_of_string a ++ list_ascii_of_string b)%list.
Proof. induction a as [|c a IH]; simpl; [reflexivity|]. now rewrite IH. Qed.

Lemma cmp_chars_refl (a : list ascii) : cmp_chars a a = Eq.
Proof.
  induction a as [|x a IH]; simpl; [reflexivity|].
  unfold Ascii.compare. now rewrite N.compare_refl.
Qed.

Lemma cmp_tok_refl (x : tok) : cmp_tok x x = Eq.
Proof. destruct x; simpl; [apply N.compare_refl | apply cmp_chars_refl]. Qed.

Lemma cmp_key_app_same (P A B : list tok) : cmp_key (P ++ A) (P ++ B) = cmp_key A B.
Proof. induction P as [|x P IH]; simpl; [reflexivity|]. now rewrite cmp_tok_refl. Qed.

Lemma cmp_chars_app_same (u a b : list ascii) :
  cmp_chars (u ++ a) (u ++ b) = cmp_chars a b.
Proof.
  induction u as [|x u IH]; simpl; [reflexivity|].
  unfold Ascii.compare. now rewrite N.compare_refl.
Qed.

Lemma out_nondigit (ch : ascii) (s : list ascii) : is_digit ch = false ->
  exists p r, out scan0 (ch :: s) = (ch :: p) :: r.
Proof.
  intros D. unfold out at 1, run. simpl. unfold scan0 at 1. rewrite step_text, D.
  fold (run (mkScan [] [ch] MText) s). fold (out (mkScan [] [ch] MText) s).
  rewrite out_text. destruct (out scan0 s) as [|p r] eqn:E.
  - exfalso. exact (out_nonempty _ _ E).
  - exists p, r. reflexivity.
Qed.

Lemma isdigit_nondigit (u q : list ascii) (ch : ascii) :
  is_digit ch = false -> isdigit (u ++ ch :: q) = false.
Proof.
  intros D. unfold isdigit. destruct (u ++ ch :: q) as [|x l] eqn:E.
  - destruct u; discriminate.
  - rewrite <- E, forallb_app. simpl. rewrite D. now rewrite !andb_false_r.
Qed.

(** Two keys with the same base, each followed by a suffix that starts with a
    non-digit, are ordered as the suffixes alone. *)
Lemma cmp_key_common_base (b : string) (c1 c2 : ascii) (s1 s2 : string) :
  is_digit c1 = false -> is_digit c2 = false ->
  cmp_key (natural_sort_key (b ++ String c1 s1)) (natural_sort_key (b ++ String c2 s2)) =
  cmp_key (natural_sort_key (String c1 s1)) (natural_sort_key (String c2 s2)).
Proof.
  intros D1 D2. unfold natural_sort_key, re_split_digits.
  rewrite !list_ascii_of_string_app. simpl list_ascii_of_string.
  destruct (out_base (list_ascii_of_string b)) as (P & u & H).
  fold (out scan0 (list_ascii_of_string b ++ c1 :: list_ascii_of_string s1)).
  fold (out scan0 (list_ascii_of_string b ++ c2 :: list_ascii_of_string s2)).
  fold (out scan0 (c1 :: list_ascii_of_string s1)).
  fold (out scan0 (c2 :: list_ascii_of_string s2)).
  rewrite (H _ _ D1), (H _ _ D2), !map_app, cmp_key_app_same.
  destruct (out_nondigit c1 (list_ascii_of_string s1) D1) as (p1 & r1 & E1).
  destruct (out_nondigit c2 (list_ascii_of_string s2) D2) as (p2 & r2 & E2).
  rewrite E1, E2. simpl prepend. simpl map.
  unfold tokify. rewrite !isdigit_nondigit by assumption.
  change (c1 :: p1) with ([] ++ c1 :: p1).
  change (c2 :: p2) with ([] ++ c2 :: p2).
  rewrite !isdigit_nondigit by assumption.
  simpl. rewrite map_app, map_app, cmp_chars_app_same. reflexivity.
Qed.

End NatSortFacts.

(* ================================================================= *)
(** ** Shared core: [s3_operation_with_retry]
    (python_zipper-v6.py 258-314; python_unzipper-v6.py 220-273)

    The operation is an oracle [resp]: the [i]-th call (0-based) returns or
    raises, and takes some seconds of wall-clock time.  The clock starts at 0
    ([start_time]); [time.sleep] advances it. *)

Module Retry.
Local Open Scope list_scope.

Inductive s3_error :=
| BotoConnectionError                 (** [botocore.exceptions.ConnectionError] *)
| ClientError (code : string)         (** [botocore.exceptions.ClientError] *)
| RequestTimeoutError                 (** [RequestTimeout] / [BotocoreConnectionError] *)
| OtherError.                         (** any other [Exception] *)

Inductive call_outcome := Returns | Raises (e : s3_error).

Inductive retry_result :=
| RetOk                               (** [return operation_func()] *)
| RetRaise (e : s3_error)             (** re-raised or [raise last_exception] *)
| RetTimeout                          (** [TimeoutError] of the duration cap *)
| RetUnknown.                         (** [Exception("Unknown S3 error")] *)

Record trace := mkTrace {
  t_res : retry_result;
  t_calls : nat;          (** number of calls of [operation_func] *)
  t_sleeps : list Z;      (** the [time.sleep] arguments, in order *)
  t_now : Z }.            (** elapsed seconds at the end *)

Definition S3_MAX_RETRIES : nat := 3.
Definition MAX_RETRY_DURATION : Z := 300.

Definition mem_str (x : string) (l : list string) : bool :=
  existsb (String.eqb x) l.

Definition is_rate_limit (code : string) : bool :=
  mem_str code ["SlowDown"; "503"; "RequestLimitExceeded"].

Definition is_permanent (code : string) : bool :=
  mem_str code ["NoSuchKey"; "AccessDenied"; "InvalidAccessKeyId"].

Section Loop.
Variable resp : nat -> call_outcome * Z.
Variable max_retries : nat.
Variable max_duration : Z.

(** [if attempt < max_retries - 1: time.sleep(2 ** attempt)] *)
Definition normal_wait (attempt : nat) : option Z :=
  if (attempt <? max_retries - 1)%nat then Some (2 ^ Z.of_nat attempt)%Z else None.

Definition sleep_opt (w : option Z) (now : Z) (sleeps : list Z) : Z * list Z :=
  match w with
  | Some t => ((now + t)%Z, sleeps ++ [t])
  | None => (now, sleeps)
  end.

(** [for attempt in range(max_retries)]: [n] iterations remain. *)
Fixpoint loop (n attempt : nat) (now : Z) (last : option s3_error)
    (calls : nat) (sleeps : list Z) : trace :=
  match n with
  | O => mkTrace (match last with Some e => RetRaise e | None => RetUnknown end)
                 calls sleeps now
  | S n' =>
      if (max_duration <? now)%Z then mkTrace RetTimeout calls sleeps now
      else
        let '(o, d) := resp attempt in
        let now1 := (now + d)%Z in
        match o with
        | Returns => mkTrace RetOk (S calls) sleeps now1
        | Raises e =>
            match e with
            | ClientError code =>
                if is_rate_limit code then
                  let w := Z.min (2 ^ (Z.of_nat attempt + 2)) 60 in
                  loop n' (S attempt) (now1 + w) (Some e) (S calls) (sleeps ++ [w])
                else if is_permanent code then
                  mkTrace (RetRaise e) (S calls) sleeps now1
                else
                  let '(now2, sl2) := sleep_opt (normal_wait attempt) now1 sleeps in
                  loop n' (S attempt) now2 (Some e) (S calls) sl2
            | _ =>
                let '(now2, sl2) := sleep_opt (normal_wait attempt) now1 sleeps in
                loop n' (S attempt) now2 (Some e) (S calls) sl2
            end
        end
  end.

Definition s3_operation_with_retry : trace := loop max_retries 0 0 None 0 [].

End Loop.
End Retry.

(* ================================================================= *)
(** ** Progress documents and their read-modify-write updates

    A progress document is a JSON object; a missing field reads as empty or
    false.  The stored object is absent, a parseable document, or bytes that
    do not parse.  [load_progress] returns [{}] on a missing key, on a JSON
    decode error and on any other failure (after the retry wrapper). *)

Module Progress.
Import PyStr Retry.
Local Open Scope list_scope.

(** Zipper document [<prefix>_progress/<san>_progress.json] *)
Record zdoc := mkZdoc {
  completed_keys : option (list string);
  completed_files : option (list string);
  large_files_done : option (list string);
  z_folder_complete : option bool }.

Definition zempty : zdoc := mkZdoc None None None None.

(** Unzipper document [<prefix>_progress/<san>_unzip_progress.json] *)
Record udoc := mkUdoc {
  processed_keys : option (list string);
  u_folder_complete : option bool }.

Definition uempty : udoc := mkUdoc None None.

Inductive stored (D : Type) := Missing | Stored (d : D) | Corrupt.
Arguments Missing {D}. Arguments Stored {D} d. Arguments Corrupt {D}.

(** Outcome of the [get_object] call as seen after the retry wrapper. *)
Inductive read_net := ReadOk | ReadFails.

Definition load_progress {D} (empty : D) (net : read_net) (obj : stored D) : D :=
  match net, obj with
  | ReadOk, Stored d => d
  | _, _ => empty
  end.

Definition get_list (o : option (list string)) : list string :=
  match o with Some l => l | None => [] end.

Definition get_bool (o : option bool) : bool :=
  match o with Some b => b | None => false end.

(** [list(set(xs))] lists the elements of a Python set in the set's
    iteration (hash) order.  The model leaves that order open: the updates
    below take the conversion [list_of_set] as a parameter, and all that
    Python guarantees of it is [set_list_spec]: every element of [xs]
    appears, once, and nothing else does. *)
Definition set_list_spec (list_of_set : list string -> list string) : Prop :=
  forall xs, NoDup (list_of_set xs) /\ (forall x, In x (list_of_set xs) <-> In x xs).

(** One such order (the last copy of each element is kept in place), used
    to evaluate examples. *)
Fixpoint dedup (xs : list string) : list string :=
  match xs with
  | [] => []
  | x :: xs' => if mem_str x xs' then dedup xs' else x :: dedup xs'
  end.

Definition MAX_PROGRESS_FILES : nat := 5000.

(** [prune_progress_files] (zipper): keep the last [max_files] entries. *)
Definition prune_progress_files (d : zdoc) : zdoc :=
  let cf := get_list (completed_files d) in
  if (MAX_PROGRESS_FILES <? List.length cf)%nat
  then mkZdoc (completed_keys d)
              (Some (skipn (List.length cf - MAX_PROGRESS_FILES) cf))
              (large_files_done d) (z_folder_complete d)
  else d.

Definition ensure_lists (d : zdoc) : zdoc :=
  mkZdoc (Some (get_list (completed_keys d))) (Some (get_list (completed_files d)))
         (Some (get_list (large_files_done d))) (z_folder_complete d).

(** [if x not in l: l.append(x)] *)
Definition append_new (x : string) (l : list string) : list string :=
  if mem_str x l then l else l ++ [x].

Section SetOrder.
Variable list_of_set : list string -> list string.

(** The three zipper updates. *)
Inductive zop :=
| MarkPart (s3_key : string) (files_in_part : list string)   (** [mark_part_complete] *)
| MarkLarge (file_path : string)                           (** [mark_large_file_complete] *)
| MarkFolder.                                               (** [mark_folder_complete] *)

Definition zupdate (op : zop) (p : zdoc) : zdoc :=
  match op with
  | MarkPart k files =>
      let p := ensure_lists p in
      mkZdoc (Some (append_new k (get_list (completed_keys p))))
             (Some (list_of_set (get_list (completed_files p) ++ files)))
             (large_files_done p) (z_folder_complete p)
  | MarkLarge path =>
      let p := ensure_lists p in
      mkZdoc (completed_keys p) (completed_files p)
             (Some (append_new path (get_list (large_files_done p))))
             (z_folder_complete p)
  | MarkFolder =>
      mkZdoc (completed_keys p) (completed_files p) (large_files_done p) (Some true)
  end.

(** [_update_progress_safe] in the zipper: load, mutate, prune, save.  When
    [put_object] fails ([save_ok = false]) the stored object is unchanged. *)
Definition zipper_update (op : zop) (net : read_net) (save_ok : bool)
    (obj : stored zdoc) : stored zdoc * bool :=
  let p := zupdate op (load_progress zempty net obj) in
  if save_ok then (Stored (prune_progress_files p), true) else (obj, false).

End SetOrder.

(** The two unzipper updates. *)
Inductive uop :=
| MarkZip (s3_key : string)       (** [mark_zip_processed] *)
| UMarkFolder.                    (** [mark_folder_complete] *)

Definition uupdate (op : uop) (p : udoc) : udoc :=
  match op with
  | MarkZip k =>
      mkUdoc (Some (append_new k (get_list (processed_keys p))))
             (Some (get_bool (u_folder_complete p)))
  | UMarkFolder => mkUdoc (processed_keys p) (Some true)
  end.

Definition unzipper_update (op : uop) (net : read_net) (save_ok : bool)
    (obj : stored udoc) : stored udoc * bool :=
  let p := uupdate op (load_progress uempty net obj) in
  if save_ok then (Stored p, true) else (obj, false).

(** What a later reader sees. *)
Definition zkeys (obj : stored zdoc) : list string :=
  match obj with Stored d => get_list (completed_keys d) | _ => [] end.
Definition zfiles (obj : stored zdoc) : list string :=
  match obj with Stored d => get_list (completed_files d) | _ => [] end.
Definition zlarge (obj : stored zdoc) : list string :=
  match obj with Stored d => get_list (large_files_done d) | _ => [] end.
Definition zcomplete (obj : stored zdoc) : bool :=
  match obj with Stored d => get_bool (z_folder_complete d) | _ => false end.
Definition ukeys (obj : stored udoc) : list string :=
  match obj with Stored d => get_list (processed_keys d) | _ => [] end.
Definition ucomplete (obj : stored udoc) : bool :=
  match obj with Stored d => get_bool (u_folder_complete d) | _ => false end.

End Progress.

(* ================================================================= *)
(** ** Unzipper: [download_unzip_upload_one] and [process_folder]
    (python_unzipper-v6.py 544-777)

    The environment of one archive gives the outcome of each external step.
    Sizes are in bytes; [os.path.getsize(...) / (1024 * 1024)] and
    [get_folder_size_mb] are taken as exact rationals. *)

Module Unzip.
Import PyStr Retry Progress.
Local Open Scope list_scope.

Definition SKIP_UPLOAD : bool := false.
Definition MAX_ZIP_BOMB_RATIO : Q := 100.

Record zip_env := mkZipEnv {
  download_ok : bool;        (** [s3_operation_with_retry(_download)] returned *)
  file_exists : bool;        (** [os.path.exists(local_zip)] *)
  zip_valid : bool;          (** [verify_zip_integrity(local_zip)] *)
  zip_bytes : Z;             (** [os.path.getsize(local_zip)] *)
  unzip_rc : Z;              (** exit status of [unzip -o -q] *)
  extracted_bytes : Z;       (** non-link bytes under the scratch directory *)
  rclone_present : bool;     (** [shutil.which("rclone") is not None] *)
  shutdown_in_upload : bool; (** shutdown flag seen while [rclone copy] runs *)
  upload_rc : Z;             (** exit status of [rclone copy] *)
  progress_net : read_net;   (** the [get_object] of [mark_zip_processed] *)
  progress_save_ok : bool }. (** the [put_object] of [mark_zip_processed] *)

Definition mb (bytes : Z) : Q := inject_Z bytes / inject_Z (1024 * 1024).

(** [file_size_mb > 0 and (total_size_mb / file_size_mb) > MAX_ZIP_BOMB_RATIO] *)
Definition bomb_detected (zip_b extracted_b : Z) : bool :=
  negb (Qle_bool (mb zip_b) 0) &&
  negb (Qle_bool (mb extracted_b / mb zip_b) MAX_ZIP_BOMB_RATIO).

(** Outcome of one call: return value, whether the extracted tree was sent to
    the destination, and the unzipper progress object afterwards. *)
Record worker_out := mkWorkerOut {
  w_result : bool;
  w_uploaded : bool;
  w_progress : stored udoc }.

Definition download_unzip_upload_one (s3_key : string) (env : zip_env)
    (prog : stored udoc) : worker_out :=
  let fail := mkWorkerOut false false prog in
  if negb (download_ok env) then fail
  else if negb (file_exists env) then fail
  else if negb (zip_valid env) then fail
  else if negb ((unzip_rc env =? 0)%Z || (unzip_rc env =? 1)%Z) then fail
  else if bomb_detected (zip_bytes env) (extracted_bytes env) then fail
  else if SKIP_UPLOAD then
    (* [cp -r -n] into LOCAL_OUTPUT_DIR, then progress *)
    let '(prog', _) := unzipper_update (MarkZip s3_key) (progress_net env)
                         (progress_save_ok env) prog in
    mkWorkerOut true true prog'
  else if negb (rclone_present env) then fail
  else if shutdown_in_upload env then mkWorkerOut false true prog
  else if negb (upload_rc env =? 0)%Z then mkWorkerOut false true prog
  else
    (* [mark_zip_processed]; a failed save only logs a warning *)
    let '(prog', _) := unzipper_update (MarkZip s3_key) (progress_net env)
                         (progress_save_ok env) prog in
    mkWorkerOut true true prog'.

(** The per-folder worker.  [shutdown i] is the shutdown flag as seen before
    the [i]-th remaining archive; [envs k] is the environment of archive [k];
    [mark_net]/[mark_save] are the outcomes of the final [mark_folder_complete]. *)
Record folder_out := mkFolderOut {
  f_attempted : list string;   (** archives handed to the per-archive worker *)
  f_failed : list string;
  f_marked : bool;             (** [mark_folder_complete] was called *)
  f_progress : stored udoc }.

Fixpoint run_archives (shutdown : nat -> bool) (envs : string -> zip_env)
    (i : nat) (keys : list string) (prog : stored udoc)
    (attempted failed : list string) : folder_out * bool :=
  match keys with
  | [] => (mkFolderOut attempted failed false prog, false)
  | k :: ks =>
      if shutdown i then (mkFolderOut attempted failed false prog, true)
      else
        let o := download_unzip_upload_one k (envs k) prog in
        run_archives shutdown envs (S i) ks (w_progress o) (attempted ++ [k])
          (if w_result o then failed else failed ++ [k])
  end.

(** Every step of [download_unzip_upload_one] up to and including the
    upload succeeded. *)
Definition archive_ok (env : zip_env) : bool :=
  download_ok env && file_exists env && zip_valid env &&
  ((unzip_rc env =? 0)%Z || (unzip_rc env =? 1)%Z) &&
  negb (bomb_detected (zip_bytes env) (extracted_bytes env)) &&
  rclone_present env && negb (shutdown_in_upload env) && (upload_rc env =? 0)%Z.

Section Folder.
Variables (S3_PREFIX safe_name : string).
Variable listing : option (list string).
Variable shutdown : nat -> bool.
Variable envs : string -> zip_env.
Variables (load_net mark_net : read_net) (mark_save : bool).

Definition process_folder (prog : stored udoc) : folder_out :=
  if get_bool (u_folder_complete (load_progress uempty load_net prog))
  then mkFolderOut [] [] false prog
  else
    let zip_keys := NatSort.list_s3_zips_for_folder S3_PREFIX safe_name listing in
    match zip_keys with
    | [] => mkFolderOut [] [] false prog
    | _ =>
        let processed := get_list (processed_keys (load_progress uempty load_net prog)) in
        let remaining := filter (fun k => negb (mem_str k processed)) zip_keys in
        match remaining with
        | [] => mkFolderOut [] [] true
                  (fst (unzipper_update UMarkFolder mark_net mark_save prog))
        | _ =>
            let '(o, aborted) := run_archives shutdown envs 0 remaining prog [] [] in
            if aborted then o
            else match f_failed o with
                 | [] => mkFolderOut (f_attempted o) [] true
                           (fst (unzipper_update UMarkFolder mark_net mark_save
                                   (f_progress o)))
                 | _ => o
                 end
        end
  end.

End Folder.
End Unzip.

(* ================================================================= *)
(** ** Zipper: large files, the pre-zip disk check and folder completion
    (python_zipper-v6.py 561-569, 688-790, 936-940, 1240-1330) *)

Module ZipMain.
Import PyStr Retry Progress.
Local Open Scope list_scope.

(** [check_disk_space_for_file]: [None] stands for [shutil.disk_usage]
    raising [OSError]; [stat_result.free >= required_bytes * 1.1] is taken
    in exact arithmetic. *)
Definition check_disk_space_for_file (required_bytes : Z) (free : option Z) : bool :=
  match free with
  | None => true
  | Some f => (11 * required_bytes <=? 10 * f)%Z
  end.

Inductive zip_step := ZipAborted | ZipBuilding.

(** [estimated_zip_size = get_folder_size_bytes(temp_dir)]
    [if not check_disk_space_for_file(estimated_zip_size): ... return False]
    [cmd_zip = ["zip", "-0", ...]] *)
Definition pre_zip_check (estimated_zip_size : Z) (free : option Z) : zip_step :=
  if check_disk_space_for_file estimated_zip_size free then ZipBuilding else ZipAborted.

(** One large file in [transfer_large_files]. *)
Record large_env := mkLargeEnv {
  shutdown_before : bool;   (** [_shutdown_requested] at the top of the loop *)
  copy_rc : Z;              (** [proc.returncode] of [rclone copyto] *)
  mark_ok : bool }.         (** [mark_large_file_complete] returned True *)

(** Returns [failed_large] and the paths whose copy was started. *)
Fixpoint transfer_loop (envs : string -> large_env) (remaining : list string)
    (failed attempted : list string) : list string * list string :=
  match remaining with
  | [] => (failed, attempted)
  | p :: ps =>
      if shutdown_before (envs p) then (failed, attempted)
      else
        let ok := (copy_rc (envs p) =? 0)%Z && mark_ok (envs p) in
        transfer_loop envs ps (if ok then failed else failed ++ [p]) (attempted ++ [p])
  end.

Definition transfer_large_files (rclone_present : bool) (envs : string -> large_env)
    (remaining : list string) : list string * list string :=
  if negb rclone_present then ([], [])
  else transfer_loop envs remaining [] [].

(** The per-folder body of [main] from [fetch_map] on.  [zip_results] is the
    list of [pipeline_worker] results, [None] when the zip future raised;
    [large_raised] says the large-file future raised. *)
Record zip_folder_in := mkZipFolderIn {
  normal_list : list string;        (** [fetch_map(folder)] *)
  large_list : list string;         (** paths of [fetch_large_files(folder)] *)
  done_files : list string;         (** [get_completed_files(folder)] *)
  done_large : list string;         (** [get_completed_large_files(folder)] *)
  zip_results : option (list bool);
  rclone_ok : bool;
  large_envs : string -> large_env;
  large_raised : bool }.

Definition remaining_normal (i : zip_folder_in) : list string :=
  filter (fun f => negb (mem_str f (done_files i))) (normal_list i).

Definition remaining_large (i : zip_folder_in) : list string :=
  filter (fun p => negb (mem_str p (done_large i))) (large_list i).

Definition is_nil {A} (l : list A) : bool := match l with [] => true | _ => false end.

(** [run_zip_pipeline]: [any(r is False for r in results)] *)
Definition zip_pipeline_failed (results : list bool) : bool := existsb negb results.

(** [True] when [mark_folder_complete(folder)] is called. *)
Definition zipper_marks_folder (i : zip_folder_in) : bool :=
  let files := remaining_normal i in
  let rl := remaining_large i in
  if is_nil (normal_list i) && is_nil (large_list i) then false
  else if is_nil files && is_nil rl then true
  else
    let zip_fail :=
      negb (is_nil files) &&
      match zip_results i with
      | None => true
      | Some rs => zip_pipeline_failed rs
      end in
    let large_fail :=
      negb (is_nil rl) &&
      (large_raised i ||
       negb (is_nil (fst (transfer_large_files (rclone_ok i) (large_envs i) rl)))) in
    negb (zip_fail || large_fail).

End ZipMain.

(* ================================================================= *)
(** ** Mapper: size scan, list upload and the resume gate
    (master-mapper-v4.py 85-127, 589-730, 808-858) *)

Module Mapper.
Import PyStr.
Local Open Scope list_scope.

Definition GB_IN_BYTES : Z := 1024 * 1024 * 1024.
Definition LARGE_FILE_THRESHOLD_GB : Z := 20.
Definition LARGE_FILE_THRESHOLD_BYTES : Z := LARGE_FILE_THRESHOLD_GB * GB_IN_BYTES.

(** One element of the [rclone lsjson] array: a JSON object with its
    optional ["Path"] and ["Size"] members, or any other JSON value. *)
Inductive jentry :=
  | JDict (path : option string) (size : option Z)
  | JOther.

(** Outcome of [subprocess.run(cmd, ..., check=True, timeout=600)] followed by
    [json.loads(result.stdout)]. *)
Inductive lsjson_out :=
  | LsOk (entries : list jentry)
  | LsCalledProcessError
  | LsTimeout
  | LsBadJson.

(** [entry.get('Path', '')], [entry.get('Size', 0)] *)
Definition get_path (p : option string) : string :=
  match p with Some s => s | None => "" end.
Definition get_size (s : option Z) : Z :=
  match s with Some z => z | None => 0%Z end.

(** [round(x, 2)] on the exact value [x = size / 2^30] (a division by a
    power of two, exact in binary floating point): the nearest multiple of
    [1/100], ties to even. *)
Definition round_half_even (q : Q) : Z :=
  let f := Qfloor q in
  let d := Qminus q (inject_Z f) in
  if Qeq_bool d (1 # 2) then (if Z.even f then f else f + 1)%Z
  else if Qle_bool (1 # 2) d then (f + 1)%Z
  else f.

Definition size_gb (size : Z) : Q :=
  inject_Z (round_half_even (inject_Z size * 100 / inject_Z GB_IN_BYTES)) / 100.

Record large_entry := mkLarge { l_path : string; l_size : Z; l_size_gb : Q }.

Fixpoint classify (threshold : Z) (entries : list jentry)
    (normal_files : list string) (large_files : list large_entry)
    : list string * list large_entry :=
  match entries with
  | [] => (normal_files, large_files)
  | JOther :: es => classify threshold es normal_files large_files
  | JDict p s :: es =>
      let path := get_path p in
      let size := get_size s in
      if (threshold <? size)%Z
      then classify threshold es normal_files
             (large_files ++ [mkLarge path size (size_gb size)])
      else classify threshold es (normal_files ++ [path]) large_files
  end.

Definition scan_folder_with_sizes (threshold : Z) (shutdown : bool) (ls : lsjson_out)
    : list string * list large_entry :=
  if shutdown then ([], [])
  else match ls with
       | LsOk entries => classify threshold entries [] []
       | LsCalledProcessError | LsTimeout | LsBadJson => ([], [])
       end.

Definition is_dict (e : jentry) : bool :=
  match e with JDict _ _ => true | JOther => false end.
Definition entry_path (e : jentry) : string :=
  match e with JDict p _ => get_path p | JOther => "" end.
Definition entry_size (e : jentry) : Z :=
  match e with JDict _ s => get_size s | JOther => 0%Z end.
Definition large_of (e : jentry) : large_entry :=
  mkLarge (entry_path e) (entry_size e) (size_gb (entry_size e)).

(** The Staging Store as the list of (key, body lines) it holds. *)
Definition store := list (string * list string).

Fixpoint put_object (st : store) (k : string) (body : list string) : store :=
  match st with
  | [] => [(k, body)]
  | (k', b) :: r => if String.eqb k k' then (k, body) :: r else (k', b) :: put_object r k body
  end.

Definition head_object (st : store) (k : string) : bool :=
  existsb (fun kb => String.eqb (fst kb) k) st.

Fixpoint get_object (st : store) (k : string) : option (list string) :=
  match st with
  | [] => None
  | (k', b) :: r => if String.eqb k' k then Some b else get_object r k
  end.

(** Which list [classify] sends an enumerated entry to. *)
Definition is_large (T : Z) (e : jentry) : bool := is_dict e && (T <? entry_size e)%Z.
Definition is_normal (T : Z) (e : jentry) : bool := is_dict e && negb (T <? entry_size e)%Z.

Section Run.
Variable S3_PREFIX : string.
Variable sanitize_name : string -> string.

Definition list_key (folder : string) : string :=
  S3_PREFIX ++ sanitize_name folder ++ "_List.txt".

Definition large_key (folder : string) : string :=
  S3_PREFIX ++ sanitize_name folder ++ "_LargeFiles.json".

(** [upload_file_list]: the list body, possibly empty; [put_ok] is the
    outcome of the retried [put_object]. *)
Definition upload_file_list (st : store) (folder : string) (normal_files : list string)
    (put_ok : bool) : store * bool :=
  if put_ok then (put_object st (list_key folder) normal_files, true) else (st, false).

(** The loop body of step 4 of [run_mapper] for one folder; the large-file
    manifest body is kept as its paths. *)
Definition map_folder (threshold : Z) (shutdown : bool) (ls : lsjson_out)
    (put_ok : bool) (st : store) (folder : string) : store * bool :=
  let '(normal_files, large_files) := scan_folder_with_sizes threshold shutdown ls in
  let '(st1, ok) := upload_file_list st folder normal_files put_ok in
  if negb ok then (st1, false)
  else match large_files with
       | [] => (st1, true)
       | _ => (put_object st1 (large_key folder) (map l_path large_files), true)
       end.

(** Step 3 of [run_mapper] (resume check): the folders still to scan. *)
Definition resume_remaining (st : store) (folders : list string) : list string :=
  filter (fun f => negb (head_object st (list_key f))) folders.

End Run.
End Mapper.

(* ================================================================= *)
(** ** Zipper: batches of [main] and the split loop of [pipeline_worker]
    (python_zipper-v6.py 585-587, 795-1026, 1282-1296) *)

Module ZipBatch.
Import PyStr.
Local Open Scope list_scope.

Definition SPLIT_THRESHOLD : nat := 1000.

(** [math.ceil(len(files) / SPLIT_THRESHOLD)] *)
Definition num_parts (n : nat) : nat := (n + SPLIT_THRESHOLD - 1) / SPLIT_THRESHOLD.

(** [files[i*SPLIT_THRESHOLD:(i+1)*SPLIT_THRESHOLD]] *)
Definition batch (files : list string) (i : nat) : list string :=
  firstn SPLIT_THRESHOLD (skipn (i * SPLIT_THRESHOLD) files).

(** [f"Part{i+1}" if num_parts > 1 else "Full"] *)
Definition part_name (parts i : nat) : string :=
  if (1 <? parts)%nat then ("Part" ++ str_of_nat (S i))%string else "Full".

(** The tasks of [run_zip_pipeline]: batch, [s3_key], [part]. *)
Definition zip_tasks (S3_PREFIX safe_name : string) (files : list string)
    : list (list string * string * string) :=
  let parts := num_parts (List.length files) in
  map (fun i => (batch files i,
                 (S3_PREFIX ++ safe_name ++ "_" ++ part_name parts i ++ ".zip")%string,
                 part_name parts i))
      (seq 0 parts).

End ZipBatch.

Module ZipWorker.
Import PyStr Retry Progress ZipMain.
Local Open Scope list_scope.

(** [normalize_path]: [path.replace('\\', '/')] *)
Definition normalize_path (path : string) : string :=
  replace path (String "092"%char EmptyString) "/".

(** What one round of the [while len(remaining_files) > 0] loop sees. *)
Record iter_env := mkIterEnv {
  it_shutdown : bool;            (** [_shutdown_requested] at the top of the round *)
  it_read_net : read_net;        (** the read of [is_key_complete] *)
  it_abort : bool;               (** shutdown seen while [rclone copy] runs *)
  it_fetched : list (string * Z);(** files under [temp_dir] afterwards: relative path, size *)
  it_triggered : bool;           (** [disk_triggered or size_triggered] *)
  it_rc : Z;                     (** [proc.returncode] *)
  it_est_size : Z;               (** [get_folder_size_bytes(temp_dir)] *)
  it_free : option Z;            (** [shutil.disk_usage(...).free], [None] on [OSError] *)
  it_zip_ok : bool;              (** the zip exists and [verify_zip_integrity] holds *)
  it_upload_ok : bool;           (** retried upload and [head_object] succeed *)
  it_mark_net : read_net;        (** the read of [mark_part_complete] *)
  it_mark_save : bool }.         (** the write of [mark_part_complete] *)

(** The base name of a path relative to [temp_dir]. *)
Definition base_name (p : string) : string := last (split_on "/" p) EmptyString.

(** The [os.walk] loop: non-empty files other than [filelist.txt]. *)
Definition downloaded_files (fetched : list (string * Z)) : list string :=
  map fst (filter (fun e => negb (String.eqb (base_name (fst e)) "filelist.txt") &&
                            (0 <? snd e)%Z) fetched).

Definition remaining_after (remaining downloaded : list string) : list string :=
  let downloaded_set := map normalize_path downloaded in
  filter (fun f => negb (mem_str (normalize_path f) downloaded_set)) remaining.

Inductive worker_result := WOk | WFail | WRunning.

Section SetOrder.
(** The order of [list(set(...))] in [mark_part_complete]. *)
Variable list_of_set : list string -> list string.

(** The split loop; [fuel] bounds the number of rounds looked at, [WRunning]
    means the loop had not ended after them.  [it] numbers the rounds. *)
Fixpoint split_loop (fuel : nat) (envs : nat -> iter_env) (it : nat) (base_s3_key : string)
    (remaining_files : list string) (split_index : nat) (prog : stored zdoc)
    : worker_result * stored zdoc :=
  match fuel with
  | O => (WRunning, prog)
  | S fuel' =>
      match remaining_files with
      | [] => (WOk, prog)
      | _ =>
          let e := envs it in
          if it_shutdown e then (WFail, prog)
          else
            let key := ZipKey.split_key base_s3_key split_index in
            if mem_str key (get_list (completed_keys (load_progress zempty (it_read_net e) prog)))
            then split_loop fuel' envs (S it) base_s3_key remaining_files (S split_index) prog
            else if it_abort e then (WFail, prog)
            else
              let downloaded := downloaded_files (it_fetched e) in
              let remaining' := remaining_after remaining_files downloaded in
              let step :=
                match downloaded with
                | _ :: _ =>
                    if negb (check_disk_space_for_file (it_est_size e) (it_free e)) then None
                    else if negb (it_zip_ok e) then None
                    else if negb (it_upload_ok e) then None
                    else Some (fst (zipper_update list_of_set (MarkPart key downloaded)
                                      (it_mark_net e) (it_mark_save e) prog))
                | [] =>
                    if negb (it_triggered e) && negb (it_rc e =? 0)%Z then None
                    else Some prog
                end in
              match step with
              | None => (WFail, prog)
              | Some prog' =>
                  match remaining' with
                  | [] => (WOk, prog')
                  | _ => split_loop fuel' envs (S it) base_s3_key remaining' (S split_index) prog'
                  end
              end
      end
  end.

(** [pipeline_worker]: tool checks, the resume filter, then the loop. *)
Definition pipeline_worker (fuel : nat) (tools_present : bool) (r0 : read_net)
    (envs : nat -> iter_env) (original_file_list : list string) (base_s3_key : string)
    (prog : stored zdoc) : worker_result * stored zdoc :=
  if negb tools_present then (WFail, prog)
  else
    let completed := get_list (completed_files (load_progress zempty r0 prog)) in
    match completed with
    | [] => split_loop fuel envs 0 base_s3_key original_file_list 0 prog
    | _ =>
        let files := remaining_after original_file_list completed in
        match files with
        | [] => (WOk, prog)
        | _ => split_loop fuel envs 0 base_s3_key files 0 prog
        end
    end.

End SetOrder.

End ZipWorker.

(* ================================================================= *)
(** ** The normal-file list object: [upload_file_list] writes it,
    [fetch_map] reads it back (master-mapper-v4.py 671-700,
    python_zipper-v6.py 608-633).  Text is a list of code points; the
    UTF-8 encode/decode pair around the object body is the identity on it. *)

Module ListFile.
Local Open Scope Z_scope.
Local Open Scope list_scope.

(** Line boundaries of [str.splitlines]. *)
Definition is_line_boundary (c : Z) : bool :=
  existsb (Z.eqb c) [10; 11; 12; 13; 28; 29; 30; 133; 8232; 8233].

(** [str.isspace] on one code point. *)
Definition is_space (c : Z) : bool :=
  ((9 <=? c) && (c <=? 13)) || ((28 <=? c) && (c <=? 32)) ||
  existsb (Z.eqb c) [133; 160; 5760; 8232; 8233; 8239; 8287; 12288] ||
  ((8192 <=? c) && (c <=? 8202)).

(** [str.splitlines()]; [\r\n] is one boundary. *)
Fixpoint splitlines_go (cur : list Z) (s : list Z) : list (list Z) :=
  match s with
  | [] => match cur with [] => [] | _ => [rev cur] end
  | c :: s' =>
      if is_line_boundary c then
        if c =? 13 then
          match s' with
          | d :: s'' => if d =? 10 then rev cur :: splitlines_go [] s''
                        else rev cur :: splitlines_go [] s'
          | [] => [rev cur]
          end
        else rev cur :: splitlines_go [] s'
      else splitlines_go (c :: cur) s'
  end.

Definition splitlines (s : list Z) : list (list Z) := splitlines_go [] s.

Fixpoint lstrip (s : list Z) : list Z :=
  match s with
  | c :: s' => if is_space c then lstrip s' else s
  | [] => []
  end.

(** [str.strip()] *)
Definition strip (s : list Z) : list Z := rev (lstrip (rev (lstrip s))).

(** ["\n".join(normal_files)]; an empty list gives the empty body. *)
Fixpoint join_lines (ls : list (list Z)) : list Z :=
  match ls with
  | [] => []
  | [l] => l
  | l :: ls' => l ++ 10 :: join_lines ls'
  end.

(** [[line.strip() for line in content.splitlines() if line.strip()]] *)
Definition parse_file_list (content : list Z) : list (list Z) :=
  map strip (filter (fun l => match strip l with [] => false | _ => true end)
                    (splitlines content)).

End ListFile.

(* ================================================================= *)
(** ** Facts about the worker, the folder loops and the completion gate *)

Module WorkerFacts.
Import PyStr Retry Progress Unzip.
Local Open Scope list_scope.

Lemma worker_result (k : string) (env : zip_env) (prog : stored udoc) :
  w_result (download_unzip_upload_one k env prog) = archive_ok env.
Proof.
  unfold download_unzip_upload_one, archive_ok, SKIP_UPLOAD.
  destruct (download_ok env), (file_exists env), (zip_valid env),
    ((unzip_rc env =? 0)%Z || (unzip_rc env =? 1)%Z),
    (bomb_detected (zip_bytes env) (extracted_bytes env)),
    (rclone_present env), (shutdown_in_upload env), (upload_rc env =? 0)%Z;
    simpl; try reflexivity;
    destruct (unzipper_update _ _ _ _); reflexivity.
Qed.

Lemma run_archives_unmarked sh envs i keys prog att failed :
  f_marked (fst (run_archives sh envs i keys prog att failed)) = false.
Proof.
  revert i prog att failed.
  induction keys as [|k ks IH]; intros; simpl; [reflexivity|].
  destruct (sh i); [reflexivity|]. apply IH.
Qed.

Lemma run_archives_ok sh envs i keys prog att failed o :
  run_archives sh envs i keys prog att failed = (o, false) ->
  f_failed o = [] ->
  failed = [] /\ Forall (fun k => archive_ok (envs k) = true) keys.
Proof.
  revert i prog att failed.
  induction keys as [|k ks IH]; intros i prog att failed Hr Hf; simpl in Hr.
  - inversion Hr; subst; simpl in Hf. auto.
  - destruct (sh i); [discriminate|].
    apply IH in Hr; [|exact Hf]. destruct Hr as [Hn Hall].
    rewrite worker_result in Hn.
    destruct (archive_ok (envs k)) eqn:Ek.
    + subst. auto.
    + destruct failed; discriminate.
Qed.

Lemma filter_nil_notin {A} (f : A -> bool) (l : list A) x :
  filter f l = [] -> In x l -> f x = false.
Proof.
  intros H Hx. destruct (f x) eqn:E; [|reflexivity].
  assert (In x (filter f l)) by (apply filter_In; auto). rewrite H in *. contradiction.
Qed.

Lemma process_folder_marked P s listing sh envs load_net mark_net mark_save prog k :
  f_marked (process_folder P s listing sh envs load_net mark_net mark_save prog) = true ->
  In k (NatSort.list_s3_zips_for_folder P s listing) ->
  mem_str k (get_list (processed_keys (load_progress uempty load_net prog))) = false ->
  archive_ok (envs k) = true.
Proof.
  unfold process_folder.
  destruct (get_bool _); [discriminate|].
  set (zk := NatSort.list_s3_zips_for_folder P s listing).
  set (pr := get_list _).
  intros Hm Hk Hp.
  destruct zk as [|z zs] eqn:Ez; [contradiction|].
  rewrite <- Ez in *.
  destruct (filter (fun k0 => negb (mem_str k0 pr)) zk) as [|r rs] eqn:Er.
  - apply (filter_nil_notin _ _ k) in Er; [|exact Hk]. cbn beta in Er. rewrite Hp in Er. discriminate.
  - rewrite <- Er in *.
    destruct (run_archives sh envs 0 _ prog [] []) as [o ab] eqn:Eo.
    destruct ab.
    + pose proof (run_archives_unmarked sh envs 0 (filter (fun k0 => negb (mem_str k0 pr)) zk) prog [] []) as U.
      rewrite Eo in U. simpl in U. congruence.
    + destruct (f_failed o) as [|x xs] eqn:Ef.
      * apply run_archives_ok in Eo; [|exact Ef]. destruct Eo as [_ Hall].
        rewrite Forall_forall in Hall. apply Hall. apply filter_In. rewrite Hp. auto.
      * pose proof (run_archives_unmarked sh envs 0 (filter (fun k0 => negb (mem_str k0 pr)) zk) prog [] []) as U.
        rewrite Eo in U. simpl in U. congruence.
Qed.

End WorkerFacts.

Module ZipMainFacts.
Import PyStr Retry Progress ZipMain.
Local Open Scope list_scope.

Definition large_ok (envs : string -> large_env) (p : string) : Prop :=
  copy_rc (envs p) = 0%Z /\ mark_ok (envs p) = true.

Lemma transfer_loop_failed envs ps failed att :
  fst (transfer_loop envs ps failed att) = [] -> failed = [].
Proof.
  revert failed att. induction ps as [|p ps IH]; intros failed att H; simpl in H; [exact H|].
  destruct (shutdown_before (envs p)); [exact H|].
  apply IH in H. destruct ((copy_rc (envs p) =? 0)%Z && mark_ok (envs p)); [exact H|].
  destruct failed; discriminate.
Qed.

Lemma transfer_loop_ok envs ps failed att :
  Forall (large_ok envs) att ->
  fst (transfer_loop envs ps failed att) = [] ->
  Forall (large_ok envs) (snd (transfer_loop envs ps failed att)).
Proof.
  revert failed att. induction ps as [|p ps IH]; intros failed att Ha H; simpl in *; [exact Ha|].
  destruct (shutdown_before (envs p)); [exact Ha|].
  apply IH; [|exact H].
  apply Forall_app; split; [exact Ha|]. constructor; [|constructor].
  apply transfer_loop_failed in H.
  destruct (copy_rc (envs p) =? 0)%Z eqn:E1, (mark_ok (envs p)) eqn:E2; simpl in H;
    try (destruct failed; discriminate).
  split; [apply Z.eqb_eq|]; assumption.
Qed.

Lemma transfer_ok rc envs rl :
  fst (transfer_large_files rc envs rl) = [] ->
  Forall (large_ok envs) (snd (transfer_large_files rc envs rl)).
Proof.
  unfold transfer_large_files. destruct (negb rc); simpl; [constructor|].
  apply transfer_loop_ok. constructor.
Qed.

Lemma is_nil_false {A} (l : list A) : l <> [] -> is_nil l = false.
Proof. destruct l; [congruence|reflexivity]. Qed.

Lemma zipper_marks_spec (i : zip_folder_in) :
  zipper_marks_folder i = true ->
  (remaining_normal i <> [] ->
     exists rs, zip_results i = Some rs /\ Forall (fun r => r = true) rs) /\
  (remaining_large i <> [] ->
     large_raised i = false /\
     fst (transfer_large_files (rclone_ok i) (large_envs i) (remaining_large i)) = [] /\
     Forall (large_ok (large_envs i))
       (snd (transfer_large_files (rclone_ok i) (large_envs i) (remaining_large i)))).
Proof.
  unfold zipper_marks_folder.
  destruct (is_nil (normal_list i) && is_nil (large_list i)); [discriminate|].
  destruct (is_nil (remaining_normal i)) eqn:En, (is_nil (remaining_large i)) eqn:El.
  - intros _. split; intros H; apply is_nil_false in H; congruence.
  - simpl. intros H. split; [intros H'; apply is_nil_false in H'; congruence|].
    intros _. apply negb_true_iff, orb_false_iff in H. destruct H as [H1 H2].
    split; [exact H1|].
    destruct (fst (transfer_large_files _ _ _)) eqn:Ef; [|discriminate].
    split; [reflexivity|]. apply transfer_ok. exact Ef.
  - simpl. rewrite ?orb_false_r.
    intros H. split; [|intros H'; apply is_nil_false in H'; congruence].
    intros _. destruct (zip_results i) as [rs|]; [|discriminate].
    exists rs. split; [reflexivity|].
    unfold zip_pipeline_failed in H. apply negb_true_iff in H.
    apply Forall_forall. intros r Hr.
    destruct r; [reflexivity|].
    assert (existsb negb rs = true) by (apply existsb_exists; exists false; auto).
    congruence.
  - simpl. intros H. apply negb_true_iff, orb_false_iff in H. destruct H as [H1 H2].
    split.
    + intros _. destruct (zip_results i) as [rs|]; [|discriminate].
      exists rs. split; [reflexivity|].
      unfold zip_pipeline_failed in H1.
      apply Forall_forall. intros r Hr.
      destruct r; [reflexivity|].
      assert (existsb negb rs = true) by (apply existsb_exists; exists false; auto).
      congruence.
    + intros _. apply orb_false_iff in H2. destruct H2 as [H2 H3].
      split; [exact H2|].
      apply negb_false_iff in H3.
      destruct (fst (transfer_large_files _ _ _)) eqn:Ef; [|discriminate].
      split; [reflexivity|]. apply transfer_ok. exact Ef.
Qed.

End ZipMainFacts.

Module BombFacts.
Import Unzip.

Lemma mb_pos (z : Z) : (0 < z)%Z -> 0 < mb z.
Proof.
  intros H. unfold mb. apply Qlt_shift_div_l.
  - reflexivity.
  - rewrite Qmult_0_l. change 0 with (inject_Z 0). rewrite <- Zlt_Qlt. exact H.
Qed.

Lemma bomb_detected_gt (z e : Z) :
  (0 < z)%Z -> (100 * z < e)%Z -> bomb_detected z e = true.
Proof.
  intros Hz He. unfold bomb_detected, MAX_ZIP_BOMB_RATIO.
  pose proof (mb_pos z Hz) as Hm.
  apply andb_true_iff; split; apply negb_true_iff.
  - apply not_true_iff_false. rewrite Qle_bool_iff. intros C.
    apply (Qlt_not_le _ _ Hm C).
  - apply not_true_iff_false. rewrite Qle_bool_iff. intros C.
    assert (L : 100 < mb e / mb z).
    { apply Qlt_shift_div_l; [exact Hm|].
      unfold mb.
      setoid_replace (100 * (inject_Z z / inject_Z (1024 * 1024)))%Q
        with (inject_Z 100 * inject_Z z / inject_Z (1024 * 1024))%Q
        by (unfold Qdiv; apply Qmult_assoc).
      rewrite <- inject_Z_mult.
      unfold Qdiv. apply Qmult_lt_compat_r; [reflexivity|].
      rewrite <- Zlt_Qlt. exact He. }
    apply (Qlt_not_le _ _ L C).
Qed.

End BombFacts.

Module RetryFacts.
Import Retry.
Local Open Scope list_scope.

Definition backoff_ok (w : Z) : Prop := (0 < w <= 60)%Z.

Definition rate_limited (e : s3_error) : Prop :=
  exists code, e = ClientError code /\ is_rate_limit code = true.

Lemma rate_wait_ok (a : nat) : backoff_ok (Z.min (2 ^ (Z.of_nat a + 2)) 60).
Proof.
  unfold backoff_ok. split; [|apply Z.le_min_r].
  apply Z.min_glb_lt; [apply Z.pow_pos_nonneg; lia | lia].
Qed.

Lemma loop_rate_only resp maxr maxd :
  (forall a, exists code d, resp a = (Raises (ClientError code), d) /\ is_rate_limit code = true) ->
  forall n attempt now last calls sleeps,
  (n <> O \/ exists e, last = Some e /\ rate_limited e) ->
  Forall backoff_ok sleeps ->
  let t := loop resp maxr maxd n attempt now last calls sleeps in
  Forall backoff_ok (t_sleeps t) /\
  (t_calls t <= calls + n)%nat /\
  (t_res t = RetTimeout \/
   (t_calls t = calls + n /\ exists e, t_res t = RetRaise e /\ rate_limited e))%nat.
Proof.
  intros Hr n. induction n as [|n IH]; intros attempt now last calls sleeps Hl Hs; simpl.
  - destruct Hl as [Hl|[e [-> He]]]; [congruence|]. simpl.
    split; [exact Hs|]. split; [lia|]. right. split; [lia|]. eauto.
  - destruct (maxd <? now)%Z.
    + simpl. split; [exact Hs|]. split; [lia|]. left; reflexivity.
    + destruct (Hr attempt) as [code [d [E Hc]]]. rewrite E. rewrite Hc.
      destruct (IH (S attempt) (now + d + Z.min (2 ^ (Z.of_nat attempt + 2)) 60)%Z
                  (Some (ClientError code)) (S calls)
                  (sleeps ++ [Z.min (2 ^ (Z.of_nat attempt + 2)) 60]))
        as [H1 [H2 H3]].
      * right. exists (ClientError code). split; [reflexivity|]. exists code; auto.
      * apply Forall_app; split; [exact Hs|]. constructor; [apply rate_wait_ok|constructor].
      * split; [exact H1|]. split; [lia|].
        destruct H3 as [H3|[H3 H4]]; [left; exact H3|right; split; [lia|exact H4]].
Qed.

End RetryFacts.

Module ProgressFacts.
Import PyStr Retry Progress.
Local Open Scope list_scope.

Lemma mem_str_In x l : mem_str x l = true <-> In x l.
Proof.
  unfold mem_str. rewrite existsb_exists. split.
  - intros [y [Hy E]]. apply String.eqb_eq in E. subst. exact Hy.
  - intros H. exists x. split; [exact H|]. apply String.eqb_refl.
Qed.

Lemma dedup_In x l : In x (dedup l) <-> In x l.
Proof.
  induction l as [|y l IH]; simpl; [tauto|].
  destruct (mem_str y l) eqn:E.
  - rewrite IH. apply mem_str_In in E. split; [auto|]. intros [<-|H]; auto.
  - simpl. rewrite IH. tauto.
Qed.

Lemma append_new_incl x l : incl l (append_new x l).
Proof.
  unfold append_new. destruct (mem_str x l); [apply incl_refl|].
  apply incl_appl, incl_refl.
Qed.

Lemma prune_keys d : completed_keys (prune_progress_files d) = completed_keys d.
Proof. unfold prune_progress_files. destruct (_ <? _)%nat; reflexivity. Qed.
Lemma prune_large d : large_files_done (prune_progress_files d) = large_files_done d.
Proof. unfold prune_progress_files. destruct (_ <? _)%nat; reflexivity. Qed.
Lemma prune_complete d : z_folder_complete (prune_progress_files d) = z_folder_complete d.
Proof. unfold prune_progress_files. destruct (_ <? _)%nat; reflexivity. Qed.

Lemma dedup_NoDup (l : list string) : NoDup (dedup l).
Proof.
  induction l as [|x l IH]; simpl; [constructor|].
  destruct (mem_str x l) eqn:E; [exact IH|]. constructor; [|exact IH].
  rewrite dedup_In. intros Hx. apply mem_str_In in Hx. congruence.
Qed.

Lemma dedup_set_list_spec : set_list_spec dedup.
Proof. intros xs. split; [apply dedup_NoDup|intros x; apply dedup_In]. Qed.


Section SetOrder.
Variable list_of_set : list string -> list string.




Hypothesis Hset : set_list_spec list_of_set.


End SetOrder.

End ProgressFacts.

Module MapperFacts.
Import PyStr Mapper.
Local Open Scope list_scope.

Lemma classify_filter T es n l :
  classify T es n l =
  (n ++ map entry_path (filter (is_normal T) es),
   l ++ map large_of (filter (is_large T) es)).
Proof.
  revert n l. induction es as [|e es IH]; intros n l; simpl.
  - rewrite !app_nil_r. reflexivity.
  - destruct e as [p s|]; simpl.
    + unfold is_large, is_normal at 1. simpl.
      destruct (T <? get_size s)%Z; simpl; rewrite IH; rewrite <- app_assoc; reflexivity.
    + apply IH.
Qed.

Lemma filter_partition_length T es :
  (List.length (filter (is_normal T) es) + List.length (filter (is_large T) es))%nat =
  List.length (filter is_dict es).
Proof.
  induction es as [|e es IH]; simpl; [reflexivity|].
  unfold is_normal at 1, is_large at 1.
  destruct (is_dict e); simpl; [|exact IH].
  destruct (T <? entry_size e)%Z; simpl; lia.
Qed.

Lemma put_object_head st k b : head_object (put_object st k b) k = true.
Proof.
  induction st as [|[k' b'] st IH]; simpl.
  - rewrite String.eqb_refl. reflexivity.
  - destruct (String.eqb k k') eqn:E; simpl.
    + rewrite String.eqb_refl. reflexivity.
    + rewrite IH, orb_true_r. reflexivity.
Qed.

Lemma put_object_get st k b : get_object (put_object st k b) k = Some b.
Proof.
  induction st as [|[k' b'] st IH]; simpl.
  - rewrite String.eqb_refl. reflexivity.
  - destruct (String.eqb k k') eqn:E; simpl.
    + rewrite String.eqb_refl. reflexivity.
    + apply String.eqb_neq in E.
      destruct (String.eqb k' k) eqn:E'; [apply String.eqb_eq in E'; congruence|exact IH].
Qed.

End MapperFacts.

Module OrderFacts.
Import PyStr Retry Progress Unzip.
Local Open Scope list_scope.

Lemma run_archives_prefix sh envs i keys prog att failed :
  exists rest, att ++ keys = f_attempted (fst (run_archives sh envs i keys prog att failed)) ++ rest /\
  ((forall j, sh j = false) ->
   f_attempted (fst (run_archives sh envs i keys prog att failed)) = att ++ keys).
Proof.
  revert i prog att failed.
  induction keys as [|k ks IH]; intros i prog att failed; simpl.
  - exists []. rewrite app_nil_r. auto.
  - destruct (sh i) eqn:Es.
    + exists (k :: ks). simpl. split; [reflexivity|]. intros H. rewrite H in Es. discriminate.
    + destruct (IH (S i) (w_progress (download_unzip_upload_one k (envs k) prog))
                  (att ++ [k])
                  (if w_result (download_unzip_upload_one k (envs k) prog)
                   then failed else failed ++ [k])) as [rest [H1 H2]].
      exists rest. rewrite <- app_assoc in H1, H2. simpl in H1, H2. auto.
Qed.

Lemma process_folder_order P s listing sh envs load_net mark_net mark_save prog :
  let remaining :=
    filter (fun k => negb (mem_str k (get_list (processed_keys (load_progress uempty load_net prog)))))
      (NatSort.list_s3_zips_for_folder P s listing) in
  let o := process_folder P s listing sh envs load_net mark_net mark_save prog in
  (exists rest, remaining = f_attempted o ++ rest) /\
  (get_bool (u_folder_complete (load_progress uempty load_net prog)) = false ->
   (forall j, sh j = false) -> f_attempted o = remaining).
Proof.
  cbv zeta. unfold process_folder.
  destruct (get_bool _) eqn:Ec.
  - split; [eexists; reflexivity|discriminate].
  - set (zk := NatSort.list_s3_zips_for_folder P s listing).
    set (pr := get_list _).
    destruct zk as [|z zs] eqn:Ez.
    + simpl. split; [exists []; reflexivity|auto].
    + rewrite <- Ez.
      destruct (filter (fun k => negb (mem_str k pr)) zk) as [|r rs] eqn:Er.
      * simpl. split; [exists []; reflexivity|auto].
      * rewrite <- Er.
        destruct (run_archives_prefix sh envs 0 (filter (fun k => negb (mem_str k pr)) zk) prog [] [])
          as [rest [H1 H2]].
        destruct (run_archives sh envs 0 _ prog [] []) as [o ab] eqn:Eo.
        simpl in H1, H2.
        destruct ab; [split; [exists rest; exact H1|auto]|].
        destruct (f_failed o); simpl; split; try (exists rest; exact H1); auto.
Qed.

End OrderFacts.

(* ================================================================= *)
(** * The properties of the specification *)

Module Claims.
Import PyStr ZipKey Sanitize SanitizeFacts SanitizeProofs NatSort NatSortFacts
       Retry RetryFacts Progress ProgressFacts Unzip WorkerFacts BombFacts
       OrderFacts ZipMain ZipMainFacts Mapper MapperFacts.
Local Open Scope list_scope.

(** C1.  Zipper: [mark_folder_complete] is called only if every batch
    worker of the zip future returned True (the future did not raise) and the
    large-file future neither raised nor returned a failed path, so every
    large file whose copy was started was copied with exit status 0 and
    recorded.  Unzipper: [mark_folder_complete] is called only if every
    remaining archive (listed, not yet in processed_keys) was downloaded,
    found, valid, extracted, passed the bomb check and was uploaded with exit
    status 0. *)
Theorem C1_complete_only_without_failures :
  (forall i : zip_folder_in,
     zipper_marks_folder i = true ->
     (remaining_normal i <> [] ->
        exists rs, zip_results i = Some rs /\ Forall (fun r => r = true) rs) /\
     (remaining_large i <> [] ->
        large_raised i = false /\
        fst (transfer_large_files (rclone_ok i) (large_envs i) (remaining_large i)) = [] /\
        Forall (large_ok (large_envs i))
          (snd (transfer_large_files (rclone_ok i) (large_envs i) (remaining_large i))))) /\
  (forall P s listing sh envs load_net mark_net mark_save prog k,
     f_marked (process_folder P s listing sh envs load_net mark_net mark_save prog) = true ->
     In k (list_s3_zips_for_folder P s listing) ->
     mem_str k (get_list (processed_keys (load_progress uempty load_net prog))) = false ->
     archive_ok (envs k) = true).
Proof.
  split.
  - exact zipper_marks_spec.
  - intros. eapply process_folder_marked; eauto.
Qed.

Lemma C1_witness :
  let env := mkZipEnv true true true 1048576 0 2097152 true false 0 ReadOk true in
  f_marked (process_folder "work_files_zips/" "A" (Some ["work_files_zips/A_Full.zip"])
              (fun _ => false) (fun _ => env) ReadOk ReadOk true
              (Stored (mkUdoc (Some []) (Some false)))) = true /\
  archive_ok env = true.
Proof.
  cbv zeta. split; [vm_compute; reflexivity|].
  pose proof (proj2 C1_complete_only_without_failures "work_files_zips/" "A"
           (Some ["work_files_zips/A_Full.zip"]) (fun _ => false)
           (fun _ => mkZipEnv true true true 1048576 0 2097152 true false 0 ReadOk true)
           ReadOk ReadOk true (Stored (mkUdoc (Some []) (Some false)))
           "work_files_zips/A_Full.zip") as H.
  apply H.
  - vm_compute. reflexivity.
  - vm_compute. left. reflexivity.
  - vm_compute. reflexivity.
Defined.

(** C2, counterexample.  No NFC function that leaves ASCII text alone makes
    [sanitize_name] equal to the claimed encoder: on [a-b] the code keeps the
    [-], the claimed encoder writes [%2D]. *)
Lemma C2_counterexample :
  ~ (exists nfc, nfc_fixes_ascii nfc /\
       forall name, sanitize_name nfc name = spec_sanitize nfc name).
Proof.
  intros [nfc [Hn Heq]].
  specialize (Heq (ustr "a-b")).
  unfold sanitize_name, spec_sanitize, safe_encode_filename in Heq.
  rewrite Hn in Heq by (vm_compute; reflexivity).
  assert (E : is_ascii_str (ustr "a-b") = true) by (vm_compute; reflexivity).
  rewrite E in Heq. vm_compute in Heq. discriminate.
Qed.

(** C2, amended.  For a name of valid code points (ASCII names are not
    normalized; others go through NFC), [sanitize_name] UTF-8 encodes the
    name and maps each byte on its own: ASCII letters, digits and [_ . - ~]
    are kept, a space and [/] become [_], every other byte becomes [%XX]. *)
Theorem C2_sanitize_bytewise (nfc : list Z -> list Z) (name : list Z) :
  nfc_fixes_ascii nfc ->
  (forall s, valid_ustr s = true -> valid_ustr (nfc s) = true) ->
  valid_ustr name = true ->
  sanitize_name nfc name = amended_sanitize nfc name.
Proof.
  intros Hfix Hval Hname.
  unfold sanitize_name, amended_sanitize, safe_encode_filename.
  destruct (is_ascii_str name) eqn:Ea.
  - rewrite (Hfix name Ea). apply quote_replace_bytewise. exact Hname.
  - apply quote_replace_bytewise. apply Hval. exact Hname.
Qed.

Lemma C2_witness :
  sanitize_name (fun s => s) (ustr "My Folder/2024") =
  amended_sanitize (fun s => s) (ustr "My Folder/2024").
Proof.
  apply C2_sanitize_bytewise.
  - intros s _. reflexivity.
  - intros s H. exact H.
  - vm_compute. reflexivity.
Defined.

(** C3.  For the folder [a.zip] the base key of its only batch is
    [work_files_zips/a.zip_Full.zip]; the split key the loop uses at index 1
    drops every [.zip], not only the trailing one, and the Unzipper's listing
    for the folder no longer finds it. *)
Theorem C3_split_key_drops_inner_zip (nfc : list Z -> list Z) :
  sanitize_name nfc (ustr "a.zip") = "a.zip" /\
  split_key (ZipKey.S3_PREFIX ++ "a.zip" ++ "_Full.zip") 1 = "work_files_zips/a_Full_Split1.zip" /\
  spec_split_key (ZipKey.S3_PREFIX ++ "a.zip" ++ "_Full") 1 = "work_files_zips/a.zip_Full_Split1.zip" /\
  list_s3_zips_for_folder ZipKey.S3_PREFIX "a.zip"
    (Some ["work_files_zips/a.zip_Full.zip"; "work_files_zips/a_Full_Split1.zip"]) =
    ["work_files_zips/a.zip_Full.zip"].
Proof.
  split; [|vm_compute; auto].
  unfold sanitize_name, safe_encode_filename.
  assert (E : is_ascii_str (ustr "a.zip") = true) by (vm_compute; reflexivity).
  rewrite E. vm_compute. reflexivity.
Qed.

(** C4, counterexample.  Three [SlowDown] answers that take no time exhaust
    the default three attempts: the wrapper raises the rate-limit error after
    three calls, 28 seconds in, far below the 300 second cap; an operation
    that would succeed on its fourth call is never called a fourth time. *)
Lemma C4_counterexample :
  s3_operation_with_retry (fun _ => (Raises (ClientError "SlowDown"), 0%Z))
    S3_MAX_RETRIES MAX_RETRY_DURATION =
    mkTrace (RetRaise (ClientError "SlowDown")) 3 [4; 8; 16]%Z 28 /\
  t_res (s3_operation_with_retry
           (fun a => if (a <? 3)%nat then (Raises (ClientError "SlowDown"), 0%Z)
                     else (Returns, 0%Z))
           S3_MAX_RETRIES MAX_RETRY_DURATION) <> RetOk.
Proof.
  split; vm_compute; [reflexivity|discriminate].
Qed.

(** C4, amended.  When every call answers with a rate-limit error, each
    back-off lies in (0, 60] seconds and each such answer uses up one of the
    [max_retries] attempts: the wrapper either stops on the duration cap or
    makes exactly [max_retries] calls and raises the last rate-limit error. *)
Theorem C4_rate_limit_uses_attempts resp (max_retries : nat) (max_duration : Z) :
  (forall a, exists code d, resp a = (Raises (ClientError code), d) /\ is_rate_limit code = true) ->
  (0 < max_retries)%nat ->
  let t := s3_operation_with_retry resp max_retries max_duration in
  Forall backoff_ok (t_sleeps t) /\
  (t_calls t <= max_retries)%nat /\
  (t_res t = RetTimeout \/
   (t_calls t = max_retries /\ exists e, t_res t = RetRaise e /\ rate_limited e)).
Proof.
  intros Hr Hm. unfold s3_operation_with_retry.
  destruct (loop_rate_only resp max_retries max_duration Hr max_retries 0 0 None 0 [])
    as [H1 [H2 H3]].
  - left. lia.
  - constructor.
  - simpl in *. split; [exact H1|]. split; [lia|].
    destruct H3 as [H3|[H3 H4]]; [left; exact H3|right; split; [lia|exact H4]].
Qed.

Lemma C4_witness :
  let t := s3_operation_with_retry (fun _ => (Raises (ClientError "503"), 1%Z))
             S3_MAX_RETRIES MAX_RETRY_DURATION in
  Forall backoff_ok (t_sleeps t) /\
  (t_calls t <= S3_MAX_RETRIES)%nat /\
  (t_res t = RetTimeout \/
   (t_calls t = S3_MAX_RETRIES /\ exists e, t_res t = RetRaise e /\ rate_limited e)).
Proof.
  apply C4_rate_limit_uses_attempts.
  - intros a. exists "503", 1%Z. split; reflexivity.
  - unfold S3_MAX_RETRIES. lia.
Defined.

(** C5.  When the extracted tree is more than 100 times the size of a
    non-empty archive, [download_unzip_upload_one] returns False, uploads
    nothing and leaves the progress object (so processed_keys) untouched,
    whatever the earlier steps did. *)
Theorem C5_bomb_not_uploaded (s3_key : string) (env : zip_env) (prog : stored udoc) :
  (0 < zip_bytes env)%Z ->
  (100 * zip_bytes env < extracted_bytes env)%Z ->
  download_unzip_upload_one s3_key env prog = mkWorkerOut false false prog.
Proof.
  intros Hz He. unfold download_unzip_upload_one.
  rewrite (bomb_detected_gt _ _ Hz He).
  destruct (download_ok env), (file_exists env), (zip_valid env),
    ((unzip_rc env =? 0)%Z || (unzip_rc env =? 1)%Z); reflexivity.
Qed.

Lemma C5_witness :
  download_unzip_upload_one "work_files_zips/A_Part1.zip"
    (mkZipEnv true true true 1048576 0 209715200 true false 0 ReadOk true)
    (Stored (mkUdoc (Some []) (Some false))) =
  mkWorkerOut false false (Stored (mkUdoc (Some []) (Some false))).
Proof.
  apply C5_bomb_not_uploaded; simpl; lia.
Defined.

(** C6.  [list_s3_zips_for_folder] returns the [.zip] keys under
    [<prefix><safe_name>_] sorted by the natural key; for any common stem
    Part1 < Part1_Split1 < Part2 < Part10; and [process_folder] hands the
    remaining archives to the worker as a prefix of that order (all of them
    when no shutdown is requested). *)
Theorem C6_natural_order :
  (forall P s objs,
     let r := list_s3_zips_for_folder P s (Some objs) in
     Sorted key_le_rel r /\
     Permutation r (filter (fun key => startswith key (P ++ s ++ "_") && endswith key ".zip") objs)) /\
  (forall b,
     key_lt (b ++ "_Part1.zip") (b ++ "_Part1_Split1.zip") = true /\
     key_lt (b ++ "_Part1_Split1.zip") (b ++ "_Part2.zip") = true /\
     key_lt (b ++ "_Part2.zip") (b ++ "_Part10.zip") = true) /\
  list_s3_zips_for_folder "work_files_zips/" "A"
    (Some ["work_files_zips/A_Part10.zip"; "work_files_zips/A_Part2.zip";
           "work_files_zips/A_List.txt"; "work_files_zips/A_Part1_Split1.zip";
           "work_files_zips/A_Part1.zip"]) =
    ["work_files_zips/A_Part1.zip"; "work_files_zips/A_Part1_Split1.zip";
     "work_files_zips/A_Part2.zip"; "work_files_zips/A_Part10.zip"] /\
  (forall P s listing sh envs load_net mark_net mark_save prog,
     let remaining :=
       filter (fun k => negb (mem_str k (get_list (processed_keys
                                                    (load_progress uempty load_net prog)))))
         (list_s3_zips_for_folder P s listing) in
     let o := process_folder P s listing sh envs load_net mark_net mark_save prog in
     (exists rest, remaining = f_attempted o ++ rest) /\
     (get_bool (u_folder_complete (load_progress uempty load_net prog)) = false ->
      (forall j, sh j = false) -> f_attempted o = remaining)).
Proof.
  split; [|split; [|split]].
  - intros P s objs. simpl. split; [apply sort_keys_sorted|apply sort_keys_perm].
  - intros b. unfold key_lt.
    rewrite !cmp_key_common_base by reflexivity.
    vm_compute. auto.
  - vm_compute. reflexivity.
  - intros. apply process_folder_order.
Qed.

(** C7.  On a successful listing (no shutdown), the Mapper puts exactly the
    object entries whose size exceeds the threshold in the large manifest,
    each with [size_gb] its size in GiB rounded to two decimals, and exactly
    the others in the normal list, both in listing order; each object entry
    lands in exactly one of the two lists. *)
Theorem C7_size_partition (T : Z) (es : list jentry) :
  let r := scan_folder_with_sizes T false (LsOk es) in
  fst r = map entry_path (filter (is_normal T) es) /\
  snd r = map large_of (filter (is_large T) es) /\
  (List.length (fst r) + List.length (snd r))%nat = List.length (filter is_dict es) /\
  Forall (fun l => (T < l_size l)%Z /\ l_size_gb l = size_gb (l_size l)) (snd r) /\
  (forall e, In e es -> is_dict e = true ->
     ((T < entry_size e)%Z -> In (large_of e) (snd r)) /\
     ((entry_size e <= T)%Z -> In (entry_path e) (fst r))).
Proof.
  cbv zeta. unfold scan_folder_with_sizes. rewrite classify_filter. simpl.
  split; [reflexivity|]. split; [reflexivity|].
  split; [rewrite !length_map; apply filter_partition_length|].
  split.
  - apply Forall_forall. intros l Hl. apply in_map_iff in Hl.
    destruct Hl as [e [<- He]]. apply filter_In in He. destruct He as [_ He].
    unfold is_large in He. apply andb_true_iff in He. destruct He as [_ He].
    simpl. split; [apply Z.ltb_lt; exact He|reflexivity].
  - intros e Hin Hd. split; intros Hs.
    + apply in_map. apply filter_In. split; [exact Hin|].
      unfold is_large. rewrite Hd. apply Z.ltb_lt. exact Hs.
    + apply in_map. apply filter_In. split; [exact Hin|].
      unfold is_normal. rewrite Hd. simpl. apply negb_true_iff, Z.ltb_ge. exact Hs.
Qed.




(** C9.  When [rclone lsjson] times out or prints text that is not JSON,
    [scan_folder_with_sizes] returns two empty lists and the folder's step
    of [run_mapper] still writes an empty [<prefix><safe_name>_List.txt];
    the resume check of the next run then finds that object and skips the
    folder. *)
Theorem C9_failed_scan_writes_empty_list T P san (st : store) (folder : string) :
  (let st' := fst (map_folder P san T false LsTimeout true st folder) in
   get_object st' (list_key P san folder) = Some [] /\
   resume_remaining P san st' [folder] = []) /\
  (let st' := fst (map_folder P san T false LsBadJson true st folder) in
   get_object st' (list_key P san folder) = Some [] /\
   resume_remaining P san st' [folder] = []).
Proof.
  split; cbv zeta; unfold map_folder, upload_file_list; simpl;
    (split; [apply put_object_get|]);
    unfold resume_remaining; simpl; rewrite put_object_head; reflexivity.
Qed.

(** C10.  When [shutil.disk_usage] raises, [check_disk_space_for_file]
    returns True for any required size, and the pre-zip check goes on to
    build the archive. *)
Theorem C10_disk_check_fails_open (required_bytes : Z) :
  check_disk_space_for_file required_bytes None = true /\
  pre_zip_check required_bytes None = ZipBuilding.
Proof.
  split; reflexivity.
Qed.

End Claims.

(* ================================================================= *)
(** ** Further properties of the code *)

Module Extra.
Import PyStr ZipKey Sanitize SanitizeFacts SanitizeProofs NatSort NatSortFacts
  Retry RetryFacts Progress ProgressFacts Unzip WorkerFacts BombFacts OrderFacts
  ZipMain ZipMainFacts Mapper MapperFacts ZipBatch ZipWorker ListFile.
Local Open Scope list_scope.

(** *** [s3_operation_with_retry] *)

Section RetryLoop.
Variable resp : nat -> call_outcome * Z.
Variable max_retries : nat.
Variable max_duration : Z.

Lemma loop_bounds n attempt now last calls sleeps :
  let t := loop resp max_retries max_duration n attempt now last calls sleeps in
  (calls <= t_calls t <= calls + n)%nat /\
  (List.length (t_sleeps t) + calls <= List.length sleeps + t_calls t)%nat.
Proof.
  revert attempt now last calls sleeps.
  induction n as [|n IH]; intros attempt now last calls sleeps; cbn zeta; simpl.
  - lia.
  - destruct (max_duration <? now)%Z; simpl; [lia|].
    destruct (resp attempt) as [o d].
    destruct o as [|e]; simpl; [lia|].
    destruct e as [| code | |];
      [| destruct (is_rate_limit code); [| destruct (is_permanent code)] | |];
      try (simpl; lia);
      try (destruct (sleep_opt (normal_wait max_retries attempt) (now + d) sleeps) as [now2 sl2] eqn:Es;
           unfold sleep_opt in Es;
           destruct (normal_wait max_retries attempt);
           inversion Es; subst; clear Es;
           match goal with |- context [loop _ _ _ _ ?a ?nw ?l ?c ?s] =>
             pose proof (IH a nw l c s) as H end;
           cbn zeta in H; rewrite ?length_app in *; simpl in *; lia).
Qed.

Lemma loop_no_call_after_permanent n attempt now last sleeps a0 code d :
  resp a0 = (Raises (ClientError code), d) ->
  is_permanent code = true ->
  (attempt <= a0)%nat ->
  (t_calls (loop resp max_retries max_duration n attempt now last attempt sleeps) <= S a0)%nat.
Proof.
  intros Hr Hp. revert attempt now last sleeps.
  induction n as [|n IH]; intros attempt now last sleeps Ha; simpl; [lia|].
  destruct (max_duration <? now)%Z; simpl; [lia|].
  destruct (Nat.eq_dec attempt a0) as [->|Hne].
  - rewrite Hr.
    assert (Hr' : is_rate_limit code = false).
    { destruct (is_rate_limit code) eqn:E; [|reflexivity].
      unfold is_rate_limit, is_permanent in *.
      apply mem_str_In in E. apply mem_str_In in Hp.
      simpl in E, Hp. intuition congruence. }
    rewrite Hr', Hp. simpl. lia.
  - destruct (resp attempt) as [o d'].
    destruct o as [|e]; simpl; [lia|].
    destruct e as [| c | |];
      [| destruct (is_rate_limit c); [| destruct (is_permanent c)] | |];
      try (simpl; lia);
      try (destruct (sleep_opt (normal_wait max_retries attempt) (now + d') sleeps) as [now2 sl2];
           apply IH; lia).
Qed.

Lemma loop_last_set n attempt now e calls sleeps :
  t_res (loop resp max_retries max_duration n attempt now (Some e) calls sleeps) <> RetUnknown.
Proof.
  revert attempt now e calls sleeps.
  induction n as [|n IH]; intros attempt now e calls sleeps; simpl; [discriminate|].
  destruct (max_duration <? now)%Z; simpl; [discriminate|].
  destruct (resp attempt) as [o d].
  destruct o as [|e']; simpl; [discriminate|].
  destruct e' as [| c | |];
    [| destruct (is_rate_limit c); [| destruct (is_permanent c)] | |];
    try (simpl; discriminate);
    try (destruct (sleep_opt (normal_wait max_retries attempt) (now + d) sleeps); apply IH).
Qed.

End RetryLoop.

(** X1.  [s3_operation_with_retry] calls the operation at most [max_retries]
    times, and sleeps at most once per call. *)
Theorem X1_retry_call_bound resp (max_retries : nat) (max_duration : Z) :
  let t := s3_operation_with_retry resp max_retries max_duration in
  (t_calls t <= max_retries)%nat /\ (List.length (t_sleeps t) <= t_calls t)%nat.
Proof.
  cbn zeta. unfold s3_operation_with_retry.
  pose proof (loop_bounds resp max_retries max_duration max_retries 0 0 None 0 []) as H.
  cbn zeta in H. simpl in H. lia.
Qed.

(** X2.  A permanent client error ([NoSuchKey], [AccessDenied],
    [InvalidAccessKeyId]) is never retried: if the call of attempt [a0]
    raises one, the operation is called at most [a0 + 1] times. *)
Theorem X2_permanent_error_not_retried resp (max_retries : nat) (max_duration : Z)
    (a0 : nat) (code : string) (d : Z) :
  resp a0 = (Raises (ClientError code), d) ->
  is_permanent code = true ->
  (t_calls (s3_operation_with_retry resp max_retries max_duration) <= S a0)%nat.
Proof.
  intros Hr Hp. unfold s3_operation_with_retry.
  apply (loop_no_call_after_permanent resp max_retries max_duration max_retries 0 0 None [] a0 code d Hr Hp).
  lia.
Qed.

Lemma X2_witness :
  (t_calls (s3_operation_with_retry
     (fun a => if (a =? 0)%nat then (Raises OtherError, 0%Z)
               else (Raises (ClientError "NoSuchKey"), 0%Z)) 3 300) <= 2)%nat.
Proof.
  apply (X2_permanent_error_not_retried _ 3 300 1 "NoSuchKey" 0%Z); reflexivity.
Defined.

(** X3.  With at least one attempt allowed, the final
    [raise Exception("Unknown S3 error")] is never reached: the wrapper
    returns, re-raises an error of the operation, or raises the duration
    timeout. *)
Theorem X3_retry_no_unknown_error resp (max_retries : nat) (max_duration : Z) :
  (0 < max_retries)%nat ->
  t_res (s3_operation_with_retry resp max_retries max_duration) <> RetUnknown.
Proof.
  intros Hm. unfold s3_operation_with_retry.
  destruct max_retries as [|n]; [lia|]. simpl.
  destruct (max_duration <? 0)%Z; simpl; [discriminate|].
  destruct (resp 0%nat) as [o d].
  destruct o as [|e']; simpl; [discriminate|].
  destruct e' as [| c | |];
    [| destruct (is_rate_limit c); [| destruct (is_permanent c)] | |];
    try (simpl; discriminate);
    try apply loop_last_set;
    destruct (sleep_opt (normal_wait (S n) 0) d []); apply loop_last_set.
Qed.

Lemma X3_witness :
  t_res (s3_operation_with_retry (fun _ => (Raises BotoConnectionError, 0%Z)) 3 300) <> RetUnknown.
Proof.
  apply X3_retry_no_unknown_error. lia.
Defined.

(** *** [sanitize_name] *)

Lemma str_app_assoc (a b c : string) : ((a ++ b) ++ c = a ++ (b ++ c))%string.
Proof. induction a as [|x a IH]; simpl; [reflexivity|]. now rewrite IH. Qed.

Lemma concat_bytes_app (f : Z -> string) (a b : list Z) :
  concat_bytes f (a ++ b) = (concat_bytes f a ++ concat_bytes f b)%string.
Proof.
  induction a as [|x a IH]; simpl; [reflexivity|]. now rewrite IH, str_app_assoc.
Qed.

Lemma valid_ustr_app (a b : list Z) :
  valid_ustr (a ++ b) = valid_ustr a && valid_ustr b.
Proof. unfold valid_ustr. apply forallb_app. Qed.

Lemma sanitize_encoded (nfc : list Z -> list Z) (name : list Z) :
  valid_ustr (safe_encode_filename nfc name) = true ->
  sanitize_name nfc name = concat_bytes amended_byte (utf8_encode (safe_encode_filename nfc name)).
Proof. intros H. unfold sanitize_name. now apply quote_replace_bytewise. Qed.

Lemma sanitize_ascii_bytewise (nfc : list Z -> list Z) (s : list Z) :
  is_ascii_str s = true -> valid_ustr s = true ->
  sanitize_name nfc s = concat_bytes amended_byte (utf8_encode s).
Proof.
  intros Ha Hv. rewrite sanitize_encoded; unfold safe_encode_filename; rewrite Ha; auto.
Qed.

(** A character [quote] may leave in a key: ASCII letter, digit, [_ . - ~]
    or the [%] of an escape. *)
Definition s3_key_char (a : ascii) : bool :=
  is_always_safe (Z.of_N (N_of_ascii a)) || Ascii.eqb a "%".

Lemma forallb_concat_bytes (P : ascii -> bool) (f : Z -> string) (bs : list Z) :
  Forall (fun b => forallb P (list_ascii_of_string (f b)) = true) bs ->
  forallb P (list_ascii_of_string (concat_bytes f bs)) = true.
Proof.
  induction 1 as [|b bs Hb _ IH]; simpl; [reflexivity|].
  rewrite list_ascii_of_string_app, forallb_app, Hb, IH. reflexivity.
Qed.

(** X4.  Every character of a [sanitize_name] result is an ASCII letter or
    digit, one of [_ . - ~], or [%]; in particular a sanitized name never
    contains [/] or a space, so it stays one path segment of the S3 key. *)
Theorem X4_sanitize_alphabet (nfc : list Z -> list Z) (name : list Z) :
  (forall s, valid_ustr s = true -> valid_ustr (nfc s) = true) ->
  valid_ustr name = true ->
  forallb s3_key_char (list_ascii_of_string (sanitize_name nfc name)) = true.
Proof.
  intros Hn Hv.
  assert (Hs : valid_ustr (safe_encode_filename nfc name) = true).
  { unfold safe_encode_filename. destruct (is_ascii_str name); auto. }
  rewrite (sanitize_encoded nfc name Hs).
  apply forallb_concat_bytes.
  apply (Forall_bytes_bool (fun b => forallb s3_key_char (list_ascii_of_string (amended_byte b)))).
  - vm_compute. reflexivity.
  - now apply utf8_encode_bytes.
Qed.

Lemma X4_witness :
  forallb s3_key_char (list_ascii_of_string
    (sanitize_name (fun s => s) ([233; 32; 47]%Z ++ ustr "x"))) = true.
Proof.
  apply X4_sanitize_alphabet.
  - intros s H. exact H.
  - vm_compute. reflexivity.
Defined.

(** X5.  For ASCII names, a space, a [/] and a [_] at the same place give
    the same sanitized name: [a b], [a/b] and [a_b] collide. *)
Theorem X5_sanitize_collision (nfc : list Z -> list Z) (x y : list Z) :
  is_ascii_str x = true -> is_ascii_str y = true ->
  valid_ustr x = true -> valid_ustr y = true ->
  sanitize_name nfc (x ++ 32%Z :: y) = sanitize_name nfc (x ++ 95%Z :: y) /\
  sanitize_name nfc (x ++ 47%Z :: y) = sanitize_name nfc (x ++ 95%Z :: y).
Proof.
  intros Ax Ay Vx Vy.
  assert (Hs : forall c, (0 <= c < 128)%Z ->
            sanitize_name nfc (x ++ c :: y) =
            (concat_bytes amended_byte (utf8_encode x) ++
             amended_byte c ++ concat_bytes amended_byte (utf8_encode y))%string).
  { intros c Hc. rewrite sanitize_ascii_bytewise.
    - assert (Hu : utf8_of_cp c = [c]).
      { unfold utf8_of_cp. replace (c <? 128)%Z with true by lia. reflexivity. }
      unfold utf8_encode. rewrite flat_map_app. cbn [flat_map]. rewrite Hu.
      rewrite concat_bytes_app. reflexivity.
    - unfold is_ascii_str in *. rewrite forallb_app. simpl. rewrite Ax, Ay.
      replace (c <? 128)%Z with true by lia. reflexivity.
    - rewrite valid_ustr_app. unfold valid_ustr at 2. simpl. fold (valid_ustr y).
      rewrite Vx, Vy. unfold valid_cp. replace ((0 <=? c) && (c <? 1114112))%Z with true by lia.
      reflexivity. }
  rewrite !Hs by lia. split; reflexivity.
Qed.

Lemma X5_witness :
  sanitize_name (fun s => s) (ustr "My" ++ 32%Z :: ustr "Docs") =
  sanitize_name (fun s => s) (ustr "My" ++ 95%Z :: ustr "Docs") /\
  sanitize_name (fun s => s) (ustr "My" ++ 47%Z :: ustr "Docs") =
  sanitize_name (fun s => s) (ustr "My" ++ 95%Z :: ustr "Docs").
Proof.
  apply X5_sanitize_collision; vm_compute; reflexivity.
Defined.

(** X6.  A name made only of ASCII letters, digits and [_ . - ~] is its own
    sanitized name. *)
Theorem X6_sanitize_fixed_point (nfc : list Z -> list Z) (s : string) :
  forallb (fun a => is_always_safe (Z.of_N (N_of_ascii a))) (list_ascii_of_string s) = true ->
  sanitize_name nfc (ustr s) = s.
Proof.
  intros Hs.
  assert (Hb : forall a, is_always_safe (Z.of_N (N_of_ascii a)) = true ->
             (Z.of_N (N_of_ascii a) < 128)%Z).
  { intros a Ha. pose proof (N_ascii_bounded a).
    assert (Hc : forallb (fun b => negb (is_always_safe b) || (b <? 128)%Z)
                   (map Z.of_nat (seq 0 256)) = true) by (vm_compute; reflexivity).
    pose proof (forall_bytes _ Hc (Z.of_N (N_of_ascii a))) as Hx.
    cbn beta in Hx. rewrite Ha in Hx. simpl in Hx. apply Z.ltb_lt. apply Hx. unfold byte_ok. lia. }
  induction s as [|a s IH]; [reflexivity|].
  simpl in Hs. apply andb_prop in Hs as [Ha Hs].
  specialize (IH Hs). pose proof (Hb a Ha) as Hlt.
  assert (Hasc : forall t, forallb (fun a => is_always_safe (Z.of_N (N_of_ascii a)))
                   (list_ascii_of_string t) = true -> is_ascii_str (ustr t) = true /\ valid_ustr (ustr t) = true).
  { clear - Hb. intros t Ht. induction t as [|c t IHt]; [split; reflexivity|].
    simpl in Ht. apply andb_prop in Ht as [Hc Ht]. destruct (IHt Ht) as [A V].
    pose proof (Hb c Hc). pose proof (N_ascii_bounded c).
    unfold is_ascii_str, valid_ustr, ustr in *; simpl.
    rewrite A, V. unfold valid_cp.
    replace (Z.of_N (N_of_ascii c) <? 128)%Z with true by lia.
    replace ((0 <=? Z.of_N (N_of_ascii c)) && (Z.of_N (N_of_ascii c) <? 1114112))%Z with true by lia.
    split; reflexivity. }
  destruct (Hasc _ Hs) as [As Vs].
  assert (Hs' : forallb (fun a => is_always_safe (Z.of_N (N_of_ascii a)))
                  (list_ascii_of_string (String a s)) = true) by (simpl; rewrite Ha; exact Hs).
  destruct (Hasc _ Hs') as [As' Vs'].
  rewrite (sanitize_ascii_bytewise nfc _ As Vs) in IH.
  rewrite (sanitize_ascii_bytewise nfc _ As' Vs').
  assert (Hu : utf8_of_cp (Z.of_N (N_of_ascii a)) = [Z.of_N (N_of_ascii a)]).
  { unfold utf8_of_cp. replace (Z.of_N (N_of_ascii a) <? 128)%Z with true by lia. reflexivity. }
  unfold ustr, utf8_encode in *. cbn [list_ascii_of_string map flat_map]. rewrite Hu.
  cbn [app concat_bytes]. rewrite IH.
  unfold amended_byte. rewrite Ha. unfold byte_char. rewrite N2Z.id, ascii_N_embedding.
  reflexivity.
Qed.

Lemma X6_witness : sanitize_name (fun s => s) (ustr "Report_2024-v1.0~a") = "Report_2024-v1.0~a".
Proof. apply X6_sanitize_fixed_point. vm_compute. reflexivity. Defined.

(** *** The progress documents *)

Lemma skipn_suffix {A} (n : nat) (l : list A) : exists pre, l = pre ++ skipn n l.
Proof. exists (firstn n l). symmetry. apply firstn_skipn. Qed.

(** X7.  [prune_progress_files] keeps the newest [MAX_PROGRESS_FILES]
    entries of completed_files: the result has [min n 5000] entries, it is
    a suffix of the old list, and the other fields are untouched. *)
Theorem X7_prune_keeps_newest (d : zdoc) :
  let d' := prune_progress_files d in
  List.length (get_list (completed_files d')) =
    Nat.min (List.length (get_list (completed_files d))) MAX_PROGRESS_FILES /\
  (exists older, get_list (completed_files d) = older ++ get_list (completed_files d')) /\
  completed_keys d' = completed_keys d /\ large_files_done d' = large_files_done d /\
  z_folder_complete d' = z_folder_complete d.
Proof.
  cbv zeta. rewrite prune_keys, prune_large, prune_complete.
  unfold prune_progress_files.
  destruct (MAX_PROGRESS_FILES <? List.length (get_list (completed_files d)))%nat eqn:E.
  - apply Nat.ltb_lt in E. simpl. rewrite length_skipn.
    split; [lia|]. split; [apply skipn_suffix|auto].
  - apply Nat.ltb_ge in E. split; [lia|]. split; [exists []; reflexivity|auto].
Qed.

Lemma append_new_In x l : In x (append_new x l).
Proof.
  unfold append_new. destruct (mem_str x l) eqn:E.
  - now apply mem_str_In.
  - apply in_or_app. right. left. reflexivity.
Qed.

Lemma append_new_NoDup x l : NoDup l -> NoDup (append_new x l).
Proof.
  intros H. unfold append_new. destruct (mem_str x l) eqn:E; [exact H|].
  apply NoDup_app; [exact H|repeat constructor; simpl; tauto|].
  intros a Ha [<-|[]]. apply mem_str_In in Ha. congruence.
Qed.

Lemma skipn_NoDup {A} (n : nat) (l : list A) : NoDup l -> NoDup (skipn n l).
Proof.
  intros H. rewrite <- (firstn_skipn n l) in H. exact (NoDup_app_remove_l _ _ H).
Qed.

Lemma skipn_incl {A} (n : nat) (l : list A) : incl (skipn n l) l.
Proof.
  intros x Hx. rewrite <- (firstn_skipn n l). apply in_or_app. right. exact Hx.
Qed.

(** The completed_files written by [mark_part_complete]. *)
Lemma mark_part_files list_of_set k files net obj :
  zfiles (fst (zipper_update list_of_set (MarkPart k files) net true obj)) =
  let cf := list_of_set (get_list (completed_files (load_progress zempty net obj)) ++ files) in
  if (MAX_PROGRESS_FILES <? List.length cf)%nat
  then skipn (List.length cf - MAX_PROGRESS_FILES) cf else cf.
Proof.
  unfold zipper_update, prune_progress_files. simpl.
  destruct (MAX_PROGRESS_FILES <? _)%nat; reflexivity.
Qed.

(** X8.  After a successful save, [mark_part_complete(key, files)] has
    recorded the key, even when the read of the old document failed.  The
    completed files it writes are those of [list(set(old + files))] (old:
    the loaded completed_files), for any iteration order of the set: when
    that set has at most [MAX_PROGRESS_FILES] members, every loaded file
    and every file of the part is recorded; otherwise exactly
    [MAX_PROGRESS_FILES] distinct members of the set are kept, and which
    ones (old or new) depends on the set's order. *)
Theorem X8_mark_part_recorded (list_of_set : list string -> list string)
    (Hset : set_list_spec list_of_set) (k : string) (files : list string) net obj :
  let old := get_list (completed_files (load_progress zempty net obj)) in
  let o := fst (zipper_update list_of_set (MarkPart k files) net true obj) in
  In k (zkeys o) /\
  ((List.length (list_of_set (old ++ files)) <= MAX_PROGRESS_FILES)%nat ->
   incl (old ++ files) (zfiles o)) /\
  ((MAX_PROGRESS_FILES < List.length (list_of_set (old ++ files)))%nat ->
   List.length (zfiles o) = MAX_PROGRESS_FILES /\ NoDup (zfiles o) /\
   incl (zfiles o) (old ++ files)).
Proof.
  cbv zeta. split; [|split].
  - simpl. rewrite prune_keys. simpl. apply append_new_In.
  - intros Hl. rewrite mark_part_files. cbv zeta.
    replace (MAX_PROGRESS_FILES <? _)%nat with false by (symmetry; apply Nat.ltb_ge; exact Hl).
    intros x Hx. apply (proj2 (Hset _)). exact Hx.
  - intros Hl. rewrite mark_part_files. cbv zeta.
    replace (MAX_PROGRESS_FILES <? _)%nat with true by (symmetry; apply Nat.ltb_lt; exact Hl).
    split; [rewrite length_skipn; lia|]. split.
    + apply skipn_NoDup, (proj1 (Hset _)).
    + intros x Hx. apply (proj2 (Hset _)). exact (skipn_incl _ _ _ Hx).
Qed.

Lemma X8_witness :
  let old := get_list (completed_files (load_progress zempty ReadFails Missing)) in
  let o := fst (zipper_update dedup (MarkPart "p/A_Full.zip" ["a.txt"; "b.txt"]) ReadFails true
                  Missing) in
  In "p/A_Full.zip" (zkeys o) /\
  ((List.length (dedup (old ++ ["a.txt"; "b.txt"])) <= MAX_PROGRESS_FILES)%nat ->
   incl (old ++ ["a.txt"; "b.txt"]) (zfiles o)) /\
  ((MAX_PROGRESS_FILES < List.length (dedup (old ++ ["a.txt"; "b.txt"])))%nat ->
   List.length (zfiles o) = MAX_PROGRESS_FILES /\ NoDup (zfiles o) /\
   incl (zfiles o) (old ++ ["a.txt"; "b.txt"])).
Proof. exact (X8_mark_part_recorded dedup dedup_set_list_spec _ _ ReadFails Missing). Defined.

(** X9.  After a successful save, each of the other updates has recorded
    what it marks, whatever the read of the old document did: a large file
    is in large_files_done, a completed folder has folder_complete set, and
    an unzipped archive is in processed_keys. *)
Theorem X9_marks_recorded (list_of_set : list string -> list string) net (obj : stored zdoc)
    (uobj : stored udoc) :
  (forall p, In p (zlarge (fst (zipper_update list_of_set (MarkLarge p) net true obj)))) /\
  zcomplete (fst (zipper_update list_of_set MarkFolder net true obj)) = true /\
  (forall k, In k (ukeys (fst (unzipper_update (MarkZip k) net true uobj)))) /\
  ucomplete (fst (unzipper_update UMarkFolder net true uobj)) = true.
Proof.
  split; [|split; [|split]].
  - intros p. simpl. rewrite prune_large. simpl. apply append_new_In.
  - simpl. rewrite prune_complete. reflexivity.
  - intros k. simpl. apply append_new_In.
  - reflexivity.
Qed.

(** X10.  The updates never write a duplicate: if the loaded document has
    no duplicate in completed_keys and large_files_done, neither has the
    saved one, and the completed_files written by [mark_part_complete] have
    no duplicate at all, for any iteration order of [list(set(...))];
    likewise for processed_keys of the unzipper. *)
Theorem X10_updates_no_duplicates (list_of_set : list string -> list string)
    (Hset : set_list_spec list_of_set) op net obj (uop' : uop) (uobj : stored udoc) :
  let p := load_progress zempty net obj in
  NoDup (get_list (completed_keys p)) ->
  NoDup (get_list (large_files_done p)) ->
  NoDup (get_list (processed_keys (load_progress uempty net uobj))) ->
  let o := fst (zipper_update list_of_set op net true obj) in
  NoDup (zkeys o) /\ NoDup (zlarge o) /\
  (forall k files, op = MarkPart k files -> NoDup (zfiles o)) /\
  NoDup (ukeys (fst (unzipper_update uop' net true uobj))).
Proof.
  cbv zeta. intros Hk Hl Hu.
  split; [|split; [|split]].
  - unfold zipper_update. simpl. rewrite prune_keys.
    destruct op; simpl; auto. apply append_new_NoDup. exact Hk.
  - unfold zipper_update. simpl. rewrite prune_large.
    destruct op; simpl; auto. apply append_new_NoDup. exact Hl.
  - intros k files ->. rewrite mark_part_files. cbv zeta.
    destruct (MAX_PROGRESS_FILES <? _)%nat; [apply skipn_NoDup|]; apply (proj1 (Hset _)).
  - destruct uop'; simpl; auto. apply append_new_NoDup. exact Hu.
Qed.

Lemma X10_witness :
  let o := fst (zipper_update dedup (MarkPart "k2" ["a"; "a"]) ReadOk true
                 (Stored (mkZdoc (Some ["k1"]) (Some ["a"]) (Some []) None))) in
  NoDup (zkeys o) /\ NoDup (zlarge o) /\
  (forall k files, MarkPart "k2" ["a"; "a"] = MarkPart k files -> NoDup (zfiles o)) /\
  NoDup (ukeys (fst (unzipper_update (MarkZip "z") ReadOk true (@Missing udoc)))).
Proof.
  apply (X10_updates_no_duplicates dedup dedup_set_list_spec);
    simpl; repeat constructor; simpl; tauto.
Defined.

(** *** The unzipper worker and [process_folder] *)

Definition upload_started (env : zip_env) : bool :=
  download_ok env && file_exists env && zip_valid env &&
  ((unzip_rc env =? 0)%Z || (unzip_rc env =? 1)%Z) &&
  negb (bomb_detected (zip_bytes env) (extracted_bytes env)) &&
  rclone_present env.

Lemma worker_outcome (k : string) (env : zip_env) (prog : stored udoc) :
  let o := download_unzip_upload_one k env prog in
  w_result o = archive_ok env /\
  w_uploaded o = upload_started env /\
  w_progress o = (if archive_ok env
                  then fst (unzipper_update (MarkZip k) (progress_net env) (progress_save_ok env) prog)
                  else prog).
Proof.
  cbv zeta. unfold download_unzip_upload_one, archive_ok, upload_started, SKIP_UPLOAD.
  destruct (download_ok env), (file_exists env), (zip_valid env),
    ((unzip_rc env =? 0)%Z || (unzip_rc env =? 1)%Z),
    (bomb_detected (zip_bytes env) (extracted_bytes env)),
    (rclone_present env), (shutdown_in_upload env), (upload_rc env =? 0)%Z;
    simpl; try (split; [reflexivity|split; reflexivity]).
  all: destruct (unzipper_update (MarkZip k) (progress_net env) (progress_save_ok env) prog);
       simpl; split; [reflexivity|split; reflexivity].
Qed.

(** X11.  [download_unzip_upload_one] returns True exactly when every step
    succeeded and touches the progress object only then (by
    [mark_zip_processed]); [rclone copy] is started ([w_uploaded]) exactly
    when every earlier step succeeded and rclone is installed, so a failed
    or interrupted copy may have sent files although the archive stays
    unprocessed. *)
Theorem X11_worker_outcome (k : string) (env : zip_env) (prog : stored udoc) :
  let o := download_unzip_upload_one k env prog in
  w_result o = archive_ok env /\
  w_uploaded o = upload_started env /\
  w_progress o = (if archive_ok env
                  then fst (unzipper_update (MarkZip k) (progress_net env) (progress_save_ok env) prog)
                  else prog).
Proof. exact (worker_outcome k env prog). Qed.

Lemma ukeys_mark_zip k prog :
  incl (ukeys prog) (ukeys (fst (unzipper_update (MarkZip k) ReadOk true prog))) /\
  In k (ukeys (fst (unzipper_update (MarkZip k) ReadOk true prog))).
Proof.
  split; [|simpl; apply append_new_In].
  intros x Hx. simpl. apply append_new_incl.
  destruct prog as [|d|]; simpl in *; tauto.
Qed.

Lemma run_archives_records sh envs :
  (forall k, progress_net (envs k) = ReadOk /\ progress_save_ok (envs k) = true) ->
  forall keys i prog att failed,
  (forall k, In k att -> archive_ok (envs k) = true -> In k (ukeys prog)) ->
  let o := fst (run_archives sh envs i keys prog att failed) in
  incl (ukeys prog) (ukeys (f_progress o)) /\
  (forall k, In k (f_attempted o) -> archive_ok (envs k) = true -> In k (ukeys (f_progress o))).
Proof.
  intros Henv keys. induction keys as [|k ks IH]; intros i prog att failed Hatt; cbv zeta; simpl.
  - split; [apply incl_refl|exact Hatt].
  - destruct (sh i); simpl; [split; [apply incl_refl|exact Hatt]|].
    destruct (worker_outcome k (envs k) prog) as [_ [_ Hp]].
    destruct (Henv k) as [Hn Hs]. rewrite Hn, Hs in Hp.
    destruct (ukeys_mark_zip k prog) as [Hi Hk].
    assert (Hstep : incl (ukeys prog) (ukeys (w_progress (download_unzip_upload_one k (envs k) prog))) /\
                    (archive_ok (envs k) = true ->
                     In k (ukeys (w_progress (download_unzip_upload_one k (envs k) prog))))).
    { rewrite Hp. destruct (archive_ok (envs k)); [split; auto|split; [apply incl_refl|discriminate]]. }
    destruct Hstep as [Hs1 Hs2].
    edestruct IH as [IH1 IH2].
    2: { split; [eapply incl_tran; [exact Hs1|exact IH1]|exact IH2]. }
    intros x Hx Hok. apply in_app_or in Hx as [Hx|[<-|[]]].
    + apply Hs1. now apply Hatt.
    + now apply Hs2.
Qed.

(** X12.  When every [mark_zip_processed] reads and saves its document,
    [process_folder]'s loop over the archives keeps every processed key it
    started with and leaves each archive it handled and that succeeded in
    processed_keys. *)
Theorem X12_successes_recorded sh envs keys (prog : stored udoc) :
  (forall k, progress_net (envs k) = ReadOk /\ progress_save_ok (envs k) = true) ->
  let o := fst (run_archives sh envs 0 keys prog [] []) in
  incl (ukeys prog) (ukeys (f_progress o)) /\
  (forall k, In k (f_attempted o) -> archive_ok (envs k) = true -> In k (ukeys (f_progress o))).
Proof.
  intros Henv. apply (run_archives_records sh envs Henv keys 0 prog [] []).
  intros k [].
Qed.

Lemma X12_witness :
  let env := mkZipEnv true true true 1048576 0 2097152 true false 0 ReadOk true in
  let o := fst (run_archives (fun _ => false) (fun _ => env) 0 ["p/A_Part1.zip"; "p/A_Part2.zip"]
                  (Stored (mkUdoc (Some ["p/A_Old.zip"]) None)) [] []) in
  incl (ukeys (Stored (mkUdoc (Some ["p/A_Old.zip"]) None))) (ukeys (f_progress o)) /\
  (forall k, In k (f_attempted o) -> archive_ok env = true -> In k (ukeys (f_progress o))).
Proof.
  apply (X12_successes_recorded (fun _ => false)
           (fun _ => mkZipEnv true true true 1048576 0 2097152 true false 0 ReadOk true)).
  intros _. split; reflexivity.
Defined.

(** X13.  [process_folder] does nothing (no archive handled, folder not
    marked, progress untouched) when the loaded document says the folder is
    complete or when the listing finds no archive (also when the listing
    failed); when every listed archive is already in processed_keys it
    handles none and marks the folder complete. *)
Theorem X13_process_folder_edges P s listing sh envs load_net mark_net mark_save prog :
  let loaded := load_progress uempty load_net prog in
  let zips := NatSort.list_s3_zips_for_folder P s listing in
  let o := process_folder P s listing sh envs load_net mark_net mark_save prog in
  ((get_bool (u_folder_complete loaded) = true \/ zips = []) ->
   o = mkFolderOut [] [] false prog) /\
  (get_bool (u_folder_complete loaded) = false -> zips <> [] ->
   (forall k, In k zips -> In k (get_list (processed_keys loaded))) ->
   f_attempted o = [] /\ f_marked o = true /\
   o = mkFolderOut [] [] true (fst (unzipper_update UMarkFolder mark_net mark_save prog))).
Proof.
  cbv zeta. unfold process_folder. split.
  - intros [Hc|Hz]; [rewrite Hc; reflexivity|].
    destruct (get_bool _); [reflexivity|]. rewrite Hz. reflexivity.
  - intros Hc Hz Hall. rewrite Hc.
    destruct (NatSort.list_s3_zips_for_folder P s listing) as [|z zs] eqn:Ez; [congruence|].
    rewrite <- Ez.
    assert (Hf : filter (fun k => negb (mem_str k (get_list (processed_keys (load_progress uempty load_net prog)))))
                   (NatSort.list_s3_zips_for_folder P s listing) = []).
    { destruct (filter _ _) as [|r rs] eqn:Er; [reflexivity|].
      assert (Hr : In r (filter (fun k => negb (mem_str k (get_list (processed_keys (load_progress uempty load_net prog)))))
                    (NatSort.list_s3_zips_for_folder P s listing))) by (rewrite Er; left; reflexivity).
      apply filter_In in Hr as [Hin Hn]. rewrite Ez in Hin. apply Hall in Hin. apply mem_str_In in Hin.
      rewrite Hin in Hn. discriminate. }
    rewrite Hf. auto.
Qed.

(** *** The zipper's large-file transfer *)

Definition large_failed (envs : string -> large_env) (p : string) : bool :=
  negb ((copy_rc (envs p) =? 0)%Z && mark_ok (envs p)).

Lemma transfer_loop_shape envs rl failed att :
  let r := transfer_loop envs rl failed att in
  exists pre rest, rl = pre ++ rest /\ snd r = att ++ pre /\
    fst r = failed ++ filter (large_failed envs) pre /\
    (rest = [] \/ exists p ps, rest = p :: ps /\ shutdown_before (envs p) = true).
Proof.
  revert failed att. induction rl as [|p ps IH]; intros failed att; cbv zeta; simpl.
  - exists [], []. rewrite !app_nil_r. auto.
  - destruct (shutdown_before (envs p)) eqn:Es.
    + exists [], (p :: ps). simpl. rewrite !app_nil_r. split; [reflexivity|].
      split; [reflexivity|]. split; [reflexivity|]. right. eauto.
    + destruct (IH (if (copy_rc (envs p) =? 0)%Z && mark_ok (envs p) then failed else failed ++ [p])
                  (att ++ [p])) as [pre [rest [H1 [H2 [H3 H4]]]]].
      exists (p :: pre), rest. split; [simpl; rewrite H1; reflexivity|].
      rewrite H2, <- app_assoc. split; [reflexivity|]. split; [|exact H4].
      rewrite H3. unfold large_failed at 2. simpl.
      destruct ((copy_rc (envs p) =? 0)%Z && mark_ok (envs p)); simpl;
        [reflexivity|rewrite <- app_assoc; reflexivity].
Qed.

(** X14.  [transfer_large_files] copies the remaining large files in order
    and stops at the first one seen after a shutdown request; the failed
    list it returns is exactly the started files whose [rclone copyto]
    exited non-zero or whose progress save failed. *)
Theorem X14_transfer_failed_exactly envs (rl : list string) :
  let r := transfer_large_files true envs rl in
  exists rest, rl = snd r ++ rest /\
    fst r = filter (large_failed envs) (snd r) /\
    (rest = [] \/ exists p ps, rest = p :: ps /\ shutdown_before (envs p) = true).
Proof.
  cbv zeta. unfold transfer_large_files. simpl.
  destruct (transfer_loop_shape envs rl [] []) as [pre [rest [H1 [H2 [H3 H4]]]]].
  cbv zeta in *. simpl in H2, H3. exists rest. rewrite H2, H3. auto.
Qed.

(** X15.  Without rclone, [transfer_large_files] returns no failure and
    copies nothing, so a folder holding only large files is marked complete
    by [main] although none of them was transferred. *)
Theorem X15_no_rclone_marks_large_folder (i : zip_folder_in) :
  rclone_ok i = false -> large_raised i = false ->
  normal_list i = [] -> remaining_large i <> [] ->
  transfer_large_files (rclone_ok i) (large_envs i) (remaining_large i) = ([], []) /\
  zipper_marks_folder i = true.
Proof.
  intros Hr Hl Hn Hrl. unfold transfer_large_files. rewrite Hr. split; [reflexivity|].
  unfold zipper_marks_folder, remaining_normal. rewrite Hn, Hl. simpl.
  destruct (large_list i) as [|x xs] eqn:El.
  - exfalso. apply Hrl. unfold remaining_large. rewrite El. reflexivity.
  - simpl. destruct (remaining_large i); [congruence|]. simpl.
    unfold transfer_large_files. rewrite Hr. reflexivity.
Qed.

Lemma X15_witness :
  let i := mkZipFolderIn [] ["big.bin"] [] [] None false
             (fun _ => mkLargeEnv false 1 false) false in
  transfer_large_files (rclone_ok i) (large_envs i) (remaining_large i) = ([], []) /\
  zipper_marks_folder i = true.
Proof.
  apply X15_no_rclone_marks_large_folder; try reflexivity. discriminate.
Defined.

(** *** Batches of [run_zip_pipeline] *)

Lemma num_parts_cover (n : nat) : (n <= num_parts n * SPLIT_THRESHOLD)%nat.
Proof.
  unfold num_parts, SPLIT_THRESHOLD.
  pose proof (Nat.div_mod (n + 1000 - 1) 1000 ltac:(lia)).
  pose proof (Nat.mod_upper_bound (n + 1000 - 1) 1000 ltac:(lia)). lia.
Qed.

Lemma num_parts_tight (n i : nat) : (i < num_parts n)%nat -> (i * SPLIT_THRESHOLD < n)%nat.
Proof.
  unfold num_parts, SPLIT_THRESHOLD. intros Hi.
  pose proof (Nat.div_mod (n + 1000 - 1) 1000 ltac:(lia)).
  pose proof (Nat.mod_upper_bound (n + 1000 - 1) 1000 ltac:(lia)). nia.
Qed.

Lemma concat_batches (m : nat) (l : list string) :
  (List.length l <= m * SPLIT_THRESHOLD)%nat ->
  List.concat (map (batch l) (seq 0 m)) = l.
Proof.
  revert l. induction m as [|m IH]; intros l Hl.
  - simpl in *. destruct l; [reflexivity|simpl in Hl; lia].
  - transitivity (firstn SPLIT_THRESHOLD l ++ skipn SPLIT_THRESHOLD l); [|apply firstn_skipn].
    cbn [seq map List.concat]. f_equal.
    rewrite <- seq_shift, map_map.
    rewrite <- (IH (skipn SPLIT_THRESHOLD l)) by (rewrite length_skipn; rewrite Nat.mul_succ_l in Hl; lia).
    f_equal. apply map_ext. intros i. unfold batch.
    rewrite skipn_skipn. f_equal. f_equal. rewrite Nat.mul_succ_l. lia.
Qed.

Lemma str_app_inv_l (p a b : string) : (p ++ a)%string = (p ++ b)%string -> a = b.
Proof. induction p as [|c p IH]; simpl; [auto|]. intros H. inversion H. auto. Qed.

Lemma str_app_inv_r (a b s : string) : (a ++ s)%string = (b ++ s)%string -> a = b.
Proof.
  intros H. apply (f_equal list_ascii_of_string) in H.
  rewrite !list_ascii_of_string_app in H. apply app_inv_tail in H.
  apply (f_equal string_of_list_ascii) in H. rewrite !string_of_list_ascii_of_string in H.
  exact H.
Qed.

Lemma str_of_nat_inj (a b : nat) : str_of_nat a = str_of_nat b -> a = b.
Proof.
  unfold str_of_nat. intros H.
  apply (f_equal NilEmpty.uint_of_string) in H. rewrite !NilEmpty.usu in H.
  injection H as H. apply (f_equal Nat.of_uint) in H. rewrite !DecimalNat.Unsigned.of_to in H.
  exact H.
Qed.

(** X16.  [run_zip_pipeline] cuts the remaining files into
    [ceil(n / 1000)] batches that together are the file list, in order;
    every batch holds between 1 and 1000 files, and no two batches get the
    same S3 key. *)
Theorem X16_batches_partition (P safe : string) (files : list string) :
  let tasks := zip_tasks P safe files in
  List.concat (map (fun t => fst (fst t)) tasks) = files /\
  List.length tasks = num_parts (List.length files) /\
  Forall (fun t => 1 <= List.length (fst (fst t)) <= SPLIT_THRESHOLD)%nat tasks /\
  NoDup (map (fun t => snd (fst t)) tasks).
Proof.
  cbv zeta. unfold zip_tasks. rewrite !map_map. cbn [fst snd].
  split; [|split; [|split]].
  - apply concat_batches. apply num_parts_cover.
  - rewrite length_map, length_seq. reflexivity.
  - apply Forall_map, Forall_forall. intros i Hi. apply in_seq in Hi.
    pose proof (num_parts_tight (List.length files) i ltac:(lia)).
    cbn [fst]. unfold batch. rewrite length_firstn, length_skipn.
    unfold SPLIT_THRESHOLD in *. lia.
  - set (np := num_parts (List.length files)).
    apply NoDup_map_NoDup_ForallPairs; [|apply seq_NoDup].
    intros i j Hi Hj Heq. apply in_seq in Hi, Hj.
    apply str_app_inv_l in Heq. apply str_app_inv_l in Heq. apply str_app_inv_l in Heq.
    apply str_app_inv_r in Heq.
    unfold part_name in Heq. destruct (1 <? np)%nat eqn:E.
    + apply str_app_inv_l in Heq. apply str_of_nat_inj in Heq. lia.
    + apply Nat.ltb_ge in E. lia.
Qed.

(** *** The split loop of [pipeline_worker] *)

Lemma downloaded_files_nil (fetched : list (string * Z)) :
  Forall (fun e => base_name (fst e) = "filelist.txt" \/ (snd e <= 0)%Z) fetched ->
  downloaded_files fetched = [].
Proof.
  unfold downloaded_files. induction 1 as [|e es He _ IH]; [reflexivity|].
  simpl. destruct He as [He|He].
  - rewrite He. simpl. exact IH.
  - replace (0 <? snd e)%Z with false by lia. rewrite andb_false_r. exact IH.
Qed.

Lemma remaining_after_nil (remaining : list string) : remaining_after remaining [] = remaining.
Proof.
  unfold remaining_after. simpl. induction remaining as [|f fs IH]; simpl; [reflexivity|].
  now rewrite IH.
Qed.

(** X17.  The split loop of [pipeline_worker] never ends when no round
    downloads a non-empty file (every fetched file is empty or is a
    [filelist.txt]) while [rclone copy] exits with 0 or was stopped by a
    disk or size trigger: [remaining_files] never shrinks, so the loop
    neither returns nor records any progress, for any number of rounds. *)
Theorem X17_split_loop_no_download_never_ends (list_of_set : list string -> list string) fuel (envs : nat -> iter_env) it base
    (remaining : list string) split_index (prog : stored zdoc) :
  remaining <> [] ->
  (forall j, it_shutdown (envs j) = false /\ it_abort (envs j) = false /\
     Forall (fun e => base_name (fst e) = "filelist.txt" \/ (snd e <= 0)%Z) (it_fetched (envs j)) /\
     (it_triggered (envs j) = true \/ it_rc (envs j) = 0%Z)) ->
  split_loop list_of_set fuel envs it base remaining split_index prog = (WRunning, prog).
Proof.
  intros Hr Henv. revert it split_index.
  induction fuel as [|fuel IH]; intros it split_index; simpl; [reflexivity|].
  destruct remaining as [|f fs]; [congruence|].
  destruct (Henv it) as [Hs [Ha [Hf Ht]]].
  rewrite Hs.
  destruct (mem_str _ _); [apply IH|].
  rewrite Ha, (downloaded_files_nil _ Hf), remaining_after_nil.
  replace (negb (it_triggered (envs it)) && negb (it_rc (envs it) =? 0)%Z) with false
    by (destruct Ht as [Ht|Ht]; rewrite Ht; simpl; rewrite ?andb_false_r; reflexivity).
  apply IH.
Qed.

Lemma X17_witness :
  split_loop dedup 50 (fun _ => mkIterEnv false ReadOk false [("a/empty.txt", 0%Z); ("filelist.txt", 12%Z)]
                            false 0 0 None true true ReadOk true)
    0 "work_files_zips/A_Full.zip" ["a/empty.txt"] 0 Missing = (WRunning, Missing).
Proof.
  apply X17_split_loop_no_download_never_ends; [discriminate|].
  intros _. split; [reflexivity|split; [reflexivity|split]].
  - constructor; [simpl; right; lia|constructor; [left; vm_compute; reflexivity|constructor]].
  - right. reflexivity.
Defined.

(** *** Split keys *)

Lemma split_on_no_dot (stem : string) :
  forallb (fun a => negb (Ascii.eqb a ".")) (list_ascii_of_string stem) = true ->
  split_on "." (stem ++ ".zip") = [stem; "zip"].
Proof.
  induction stem as [|d s IH]; intros H; [reflexivity|].
  simpl in H. apply andb_prop in H as [Hd Hs]. simpl.
  destruct (Ascii.eqb d ".") eqn:E; [discriminate|]. rewrite (IH Hs). reflexivity.
Qed.

Lemma replace_no_dot (stem : string) :
  forallb (fun a => negb (Ascii.eqb a ".")) (list_ascii_of_string stem) = true ->
  replace_go ".zip" "" 0 (stem ++ ".zip") = stem.
Proof.
  induction stem as [|d s IH]; intros H; [reflexivity|].
  simpl in H. apply andb_prop in H as [Hd Hs].
  destruct (Ascii.eqb d ".") eqn:E; [discriminate|].
  apply Ascii.eqb_neq in E.
  change ((String d s ++ ".zip")%string) with (String d (s ++ ".zip")).
  change (replace_go ".zip" "" 0 (String d (s ++ ".zip"))) with
    (if String.prefix ".zip" (String d (s ++ ".zip"))
     then ("" ++ replace_go ".zip" "" 3 (s ++ ".zip"))%string
     else String d (replace_go ".zip" "" 0 (s ++ ".zip"))).
  destruct (String.prefix ".zip" (String d (s ++ ".zip"))) eqn:Ep.
  - apply String.prefix_correct in Ep. simpl in Ep. congruence.
  - rewrite (IH Hs). reflexivity.
Qed.

(** X18.  For a base key [stem.zip] whose stem has no dot (a folder name
    without dots), the key of split [i > 0] is [stem_Split<i>.zip], and
    split 0 uses the base key. *)
Theorem X18_split_key_shape (stem : string) (i : nat) :
  forallb (fun a => negb (Ascii.eqb a ".")) (list_ascii_of_string stem) = true ->
  split_key (stem ++ ".zip") 0 = (stem ++ ".zip")%string /\
  ((0 < i)%nat -> split_key (stem ++ ".zip") i = (stem ++ "_Split" ++ str_of_nat i ++ ".zip")%string).
Proof.
  intros H. split; [reflexivity|]. intros Hi.
  destruct i as [|i]; [lia|]. unfold split_key.
  rewrite (split_on_no_dot stem H). simpl.
  unfold replace. rewrite (replace_no_dot stem H). reflexivity.
Qed.

Lemma X18_witness :
  split_key ("work_files_zips/My_Docs_Part2" ++ ".zip") 0 = ("work_files_zips/My_Docs_Part2" ++ ".zip")%string /\
  ((0 < 3)%nat -> split_key ("work_files_zips/My_Docs_Part2" ++ ".zip") 3 =
     ("work_files_zips/My_Docs_Part2" ++ "_Split" ++ str_of_nat 3 ++ ".zip")%string).
Proof. apply X18_split_key_shape. vm_compute. reflexivity. Defined.

(** *** The normal-file list: [upload_file_list] then [fetch_map] *)

Lemma splitlines_go_plain (p cur rest : list Z) :
  forallb (fun c => negb (is_line_boundary c)) p = true ->
  splitlines_go cur (p ++ rest) = splitlines_go (rev p ++ cur) rest.
Proof.
  revert cur. induction p as [|c p IH]; intros cur H; [reflexivity|].
  simpl in H. apply andb_prop in H as [Hc Hp].
  cbn [app]. unfold splitlines_go at 1; fold splitlines_go.
  destruct (is_line_boundary c); [discriminate|].
  rewrite (IH (c :: cur) Hp). simpl. rewrite <- app_assoc. reflexivity.
Qed.

Lemma splitlines_go_newline (cur rest : list Z) :
  splitlines_go cur (10%Z :: rest) = rev cur :: splitlines_go [] rest.
Proof. reflexivity. Qed.

Lemma splitlines_join (ps : list (list Z)) :
  Forall (fun p => p <> [] /\ forallb (fun c => negb (is_line_boundary c)) p = true) ps ->
  splitlines (join_lines ps) = ps.
Proof.
  unfold splitlines. induction 1 as [|p ps [Hne Hp] Hps IH]; [reflexivity|].
  destruct ps as [|p' ps'].
  - simpl. rewrite <- (app_nil_r p) at 1. rewrite (splitlines_go_plain p [] [] Hp).
    rewrite app_nil_r. simpl.
    destruct (rev p) eqn:E; [apply (f_equal (@rev Z)) in E; rewrite rev_involutive in E; simpl in E; congruence|].
    rewrite <- E, rev_involutive. reflexivity.
  - change (join_lines (p :: p' :: ps')) with (p ++ 10%Z :: join_lines (p' :: ps')).
    rewrite (splitlines_go_plain p [] _ Hp). rewrite app_nil_r, splitlines_go_newline.
    rewrite rev_involutive, IH. reflexivity.
Qed.

(** X19.  A list of paths written by [upload_file_list] (["\n".join]) is
    read back unchanged by [fetch_map] ([splitlines], [strip], drop empty
    lines) when every path is non-empty, holds no line-boundary character
    and has no leading or trailing whitespace; an empty list gives the
    empty body and reads back as no file. *)
Theorem X19_file_list_round_trip (ps : list (list Z)) :
  Forall (fun p => p <> [] /\ forallb (fun c => negb (is_line_boundary c)) p = true /\
                   strip p = p) ps ->
  parse_file_list (join_lines ps) = ps.
Proof.
  intros H. unfold parse_file_list. rewrite splitlines_join.
  2:{ eapply Forall_impl; [|exact H]. simpl. tauto. }
  induction H as [|p ps [Hne [_ Hs]] _ IH]; [reflexivity|].
  cbn [filter]. rewrite Hs. destruct p as [|c p']; [congruence|].
  cbn [map]. rewrite Hs, IH. reflexivity.
Qed.

Lemma X19_witness :
  parse_file_list (join_lines [ustr "docs/a b.txt"; ustr "x.csv"]) = [ustr "docs/a b.txt"; ustr "x.csv"].
Proof.
  apply X19_file_list_round_trip.
  repeat (constructor; [split; [discriminate|split; vm_compute; reflexivity]|]). constructor.
Defined.

(** *** The Mapper's step for one folder *)

Lemma put_object_get_other st k1 k2 b :
  k1 <> k2 -> get_object (put_object st k2 b) k1 = get_object st k1.
Proof.
  intros Hne. induction st as [|[k' b'] r IH]; simpl.
  - destruct (String.eqb_spec k2 k1); [congruence|reflexivity].
  - destruct (String.eqb_spec k2 k'); simpl.
    + subst. destruct (String.eqb_spec k' k1); [congruence|reflexivity].
    + destruct (String.eqb k' k1); [reflexivity|exact IH].
Qed.

Lemma get_object_head st k b : get_object st k = Some b -> head_object st k = true.
Proof.
  induction st as [|[k' b'] r IH]; simpl; [discriminate|].
  destruct (String.eqb k' k); [reflexivity|]. intros H. rewrite (IH H). apply orb_true_r.
Qed.

Lemma list_key_large_key P san folder : list_key P san folder <> large_key P san folder.
Proof.
  unfold list_key, large_key. intros H.
  apply str_app_inv_l, str_app_inv_l in H. discriminate.
Qed.

(** X20.  When the list upload succeeds, the Mapper's step for a folder
    leaves the scanned normal files as the body of [<prefix><safe>_List.txt]
    (a large-file manifest, written after it, does not touch it) and the
    next run's resume check skips the folder; when the list upload fails,
    nothing is written, so a folder not yet mapped stays to be scanned. *)
Theorem X20_map_folder_outcome P san T (sh : bool) (ls : lsjson_out) (st : store) (folder : string) :
  (let '(st', ok) := map_folder P san T sh ls true st folder in
   ok = true /\
   get_object st' (list_key P san folder) = Some (fst (scan_folder_with_sizes T sh ls)) /\
   resume_remaining P san st' [folder] = []) /\
  map_folder P san T sh ls false st folder = (st, false) /\
  (head_object st (list_key P san folder) = false ->
   resume_remaining P san (fst (map_folder P san T sh ls false st folder)) [folder] = [folder]).
Proof.
  unfold map_folder, upload_file_list.
  destruct (scan_folder_with_sizes T sh ls) as [nf lf]. simpl.
  assert (Hg : forall st', get_object st' (list_key P san folder) = Some nf ->
                 resume_remaining P san st' [folder] = []).
  { intros st' H. unfold resume_remaining. simpl. rewrite (get_object_head _ _ _ H). reflexivity. }
  split; [|split; [reflexivity|]].
  - destruct lf as [|l lf'].
    + split; [reflexivity|]. split; [apply put_object_get|apply Hg, put_object_get].
    + assert (H : get_object (put_object (put_object st (list_key P san folder) nf)
                    (large_key P san folder) (map l_path (l :: lf'))) (list_key P san folder) = Some nf).
      { rewrite put_object_get_other by apply list_key_large_key. apply put_object_get. }
      split; [reflexivity|]. split; [exact H|apply Hg, H].
  - intros H. unfold resume_remaining. simpl. rewrite H. reflexivity.
Qed.

(** X21.  A shutdown request that arrives after the loop's check, when
    [scan_folder_with_sizes] starts, makes the scan return no file; the
    Mapper still writes an empty [<prefix><safe>_List.txt], and the next
    run's resume check skips the folder although it was never scanned. *)
Theorem X21_shutdown_scan_writes_empty_list P san T (ls : lsjson_out) (st : store) (folder : string) :
  let st' := fst (map_folder P san T true ls true st folder) in
  get_object st' (list_key P san folder) = Some [] /\
  resume_remaining P san st' [folder] = [].
Proof.
  cbv zeta. unfold map_folder, upload_file_list, scan_folder_with_sizes. simpl.
  split; [apply put_object_get|].
  unfold resume_remaining. simpl. rewrite put_object_head. reflexivity.
Qed.

End Extra.
